(** * YoNutri: the checkout transaction of [src/server.js]

    A shallow embedding of the [POST /api/checkout] handler, and the
    properties of its specification; then the two other handlers of the
    file, [GET /api/products] and [POST /api/newsletter], with what their
    code ensures.

    Conventions of the embedding.
    - A JavaScript value is a [jsval]; the request body is whatever
      [express.json()] hands over, [JUndefined] when there is none.
    - A JavaScript Number is a [number]: an exact rational or [NaN].  The
      source computes in binary64; the embedding evaluates the same
      expressions, operation by operation and in the order of the source, in
      exact arithmetic.  An amount of a theorem is therefore given by the
      handler's own expression ([nadd], [nmul], [ndiv], [math_round], ...),
      and the theorems use of these operations only what binary64 shares
      with the rationals: comparisons, signs, the choice [Math.max] and
      [Math.min] make.  No theorem rests on a law that rounding breaks
      (associativity, an exact decimal rounding), and none derives that a
      checkout succeeds from an amount being a number, since in binary64 an
      amount can overflow.
    - The relational store is the in-memory [db] below.  Its tables carry the
      columns the checkout reads or writes.  DECIMAL and INT columns hold
      rationals and integers, so a [NaN] bound to one of them is rejected by
      the store, as MySQL rejects the bare word the driver renders it to.
    - A store call may fail: the [faults] plan gives, for the n-th call made on
      the connection, the message of the error it raises, if any.
    - [pool.getConnection()] is taken to hand over a connection and
      [conn.release()] to succeed.  [conn.rollback()] may reject:
      [checkout_handler] takes the error it rejects with, if any, and
      [checkout] is the handler on a connection whose rollback succeeds.
    - The listing reads a [catalogue] of its own, with the columns its SELECT
      names.
    - The email of a subscription is a string of code units below 256; white
      space, lower case and the character classes of the pattern are those of
      the language on that range. *)

From Stdlib Require Import ZArith QArith Qround Lqa Lia List String Bool.
From Stdlib Require Import Sorted Permutation Ascii NArith.
Import ListNotations.

Set Implicit Arguments.

Open Scope string_scope.
Open Scope list_scope.
Set Warnings "-register-all".

(** ** JavaScript numbers *)

Inductive number : Type :=
| Fin (q : Q)
| NaN.

Definition num_of_Z (z : Z) : number := Fin (inject_Z z).

Definition nadd (a b : number) : number :=
  match a, b with Fin x, Fin y => Fin (x + y) | _, _ => NaN end.

Definition nsub (a b : number) : number :=
  match a, b with Fin x, Fin y => Fin (x - y) | _, _ => NaN end.

Definition nmul (a b : number) : number :=
  match a, b with Fin x, Fin y => Fin (x * y) | _, _ => NaN end.

(** [a / b].  The handler only ever divides by the literal 100; a zero divisor
    is mapped to [NaN] and never met. *)
Definition ndiv (a b : number) : number :=
  match a, b with
  | Fin x, Fin y => if Qeq_bool y 0 then NaN else Fin (x / y)
  | _, _ => NaN
  end.

(** [Math.max(a, b)] and [Math.min(a, b)]: [NaN] as soon as one argument is. *)
Definition math_max (a b : number) : number :=
  match a, b with
  | Fin x, Fin y => Fin (if Qle_bool x y then y else x)
  | _, _ => NaN
  end.

Definition math_min (a b : number) : number :=
  match a, b with
  | Fin x, Fin y => Fin (if Qle_bool x y then x else y)
  | _, _ => NaN
  end.

(** [Math.round(a)]: the nearest integer, a tie going towards +infinity. *)
Definition math_round (a : number) : number :=
  match a with
  | Fin x => Fin (inject_Z (Qfloor (x + (1 # 2))))
  | NaN => NaN
  end.

(** [a >= b], false as soon as one side is [NaN]. *)
Definition nge (a b : number) : bool :=
  match a, b with
  | Fin x, Fin y => Qle_bool y x
  | _, _ => false
  end.



(** ** JavaScript values *)

Inductive jsval : Type :=
| JUndefined
| JNull
| JBool (b : bool)
| JNum (n : number)
| JStr (s : string)
| JArr (l : list jsval)
| JObj (props : list (string * jsval)).

(** The conversions of the language and of the store that the source calls but
    does not define. *)
Class Platform : Type := {
  (** ECMAScript StringToNumber, behind [Number(s)] for a string [s]. *)
  StringToNumber : string -> number;
  (** ECMAScript ToPrimitive(hint string) of an array or object. *)
  ObjectToString : jsval -> string;
  (** The store's [column = ?] for a column value and a bound parameter
      (collation and implicit conversions are the store's). *)
  sql_eq : jsval -> jsval -> bool
}.

(** ToBoolean. *)
Definition truthy (v : jsval) : bool :=
  match v with
  | JUndefined | JNull => false
  | JBool b => b
  | JNum (Fin q) => negb (Qeq_bool q 0)
  | JNum NaN => false
  | JStr s => negb (String.eqb s "")
  | JArr _ | JObj _ => true
  end.

(** [a || b]. *)
Definition js_or (a b : jsval) : jsval := if truthy a then a else b.

(** Exceptions: the handler only reads [e.message]. *)
Record exn : Type := Error { message : string }.

Definition result (A : Type) : Type := (exn + A)%type.

Fixpoint assoc (k : string) (props : list (string * jsval)) : jsval :=
  match props with
  | [] => JUndefined
  | (k', v) :: rest => if String.eqb k k' then v else assoc k rest
  end.

(** [v.k] for the property names the handler reads ([email], [phone],
    [items], [couponCode], [sessionId], [variantId], [productSku], [grams],
    [qty]): none of them is defined on the prototypes of primitives or arrays.
    Reading a property of [null] or [undefined] throws a TypeError (V8's
    message). *)
Definition get_prop (v : jsval) (k : string) : result jsval :=
  match v with
  | JUndefined =>
      inl (Error ("Cannot read properties of undefined (reading '" ++ k ++ "')")%string)
  | JNull =>
      inl (Error ("Cannot read properties of null (reading '" ++ k ++ "')")%string)
  | JObj props => inr (assoc k props)
  | _ => inr JUndefined
  end.

(** A destructuring binding [{ k = dflt } = v] of a value [v] that is neither
    [null] nor [undefined]: the default replaces [undefined] only. *)
Definition field (v : jsval) (k : string) (dflt : jsval) : jsval :=
  match get_prop v k with
  | inr JUndefined => dflt
  | inr x => x
  | inl _ => dflt
  end.

Section Conversions.
Context {P : Platform}.

(** [Number(v)]. *)
Definition to_number (v : jsval) : number :=
  match v with
  | JUndefined => NaN
  | JNull => Fin 0
  | JBool b => if b then Fin 1 else Fin 0
  | JNum n => n
  | JStr s => StringToNumber s
  | JArr _ | JObj _ => StringToNumber (ObjectToString v)
  end.

(** [Math.max(1, Number(it.qty || 1))] *)
Definition coerce_qty (q : jsval) : number :=
  math_max (Fin 1) (to_number (js_or q (JNum (Fin 1)))).
End Conversions.

(** ** The relational store *)

(** [users]: [email] and [phone] hold the value bound by the INSERT. *)
Record user_row : Type := {
  user_id : Z;
  first_name : string;
  last_name : string;
  user_email : jsval;
  user_phone : jsval;
  password_hash : string
}.

Record product_row : Type := {
  product_id : Z;
  sku : string
}.

Record variant_row : Type := {
  variant_id : Z;
  variant_product : Z;
  grams : Q;
  price : Q
}.

(** [coupons]: [expires_at] is NULL ([None]) or a point in time. *)
Record coupon_row : Type := {
  code : string;
  discount_type : string;
  value : Q;
  min_subtotal : Q;
  is_active : bool;
  expires_at : option Z
}.

Record order_row : Type := {
  order_id : Z;
  order_user : option Z;
  session_id : jsval;
  total_amount : Q;
  status : string;
  payment_reference : option string
}.

Record order_item_row : Type := {
  item_id : Z;
  item_order : Z;
  item_variant : Z;
  quantity : Q;
  unit_price : Q
}.

Record db : Type := {
  users : list user_row;
  products : list product_row;
  product_variants : list variant_row;
  coupons : list coupon_row;
  orders : list order_row;
  order_items : list order_item_row
}.

(** The id an AUTO_INCREMENT column generates: above every id of the table. *)
Definition fresh_id (ids : list Z) : Z := (1 + fold_right Z.max 0 ids)%Z.

(** The statements of the handler, with the parameters it binds. *)
Inductive stmt : Type :=
| SelectUserByEmail (email : jsval)
| InsertUser (email phone : jsval)
| SelectVariantById (id : jsval)
| SelectVariantBySku (psku : jsval) (g : number)
| SelectCoupon (ccode : jsval)
| InsertOrder (uid : option Z) (sid : jsval) (total : number)
| InsertOrderItem (oid vid : Z) (qty price1 : number).

Inductive stmt_kind : Type := KSelect | KInsert | KUpdate | KDelete.

Definition kind_of (s : stmt) : stmt_kind :=
  match s with
  | SelectUserByEmail _ | SelectVariantById _ | SelectVariantBySku _ _
  | SelectCoupon _ => KSelect
  | InsertUser _ _ | InsertOrder _ _ _ | InsertOrderItem _ _ _ _ => KInsert
  end.

(** What happens on the pool and on the connection, in order. *)
Inductive event : Type :=
| EvAcquire
| EvBegin
| EvQuery (s : stmt)
| EvCommit
| EvRollback
| EvRelease.

(** What the coupon SELECT returns: the columns it names, and [valid]. *)
Record coupon_view : Type := {
  c_discount_type : string;
  c_value : Q;
  c_min_subtotal : Q;
  c_is_active : bool;
  c_valid : bool
}.

(** The store refuses a NaN: the driver writes it as the bare word [NaN],
    which MySQL reads as the name of a column.  (The clause MySQL names in the
    message depends on the statement; one text stands for all of them.) *)
Definition nan_error : exn := Error "Unknown column 'NaN' in 'field list'".

Definition bind_decimal (n : number) : result Q :=
  match n with
  | Fin q => inr q
  | NaN => inl nan_error
  end.

Definition bind_value (v : jsval) : result jsval :=
  match v with
  | JNum NaN => inl nan_error
  | _ => inr v
  end.

(** A connection checked out of the pool: the committed data, the data as the
    open transaction sees it, the number of calls made so far and the log. *)
Record conn : Type := {
  committed : db;
  tx : db;
  ncalls : nat;
  trace : list event
}.

Definition M (A : Type) : Type := conn -> result A * conn.

Definition ret {A} (a : A) : M A := fun c => (inr a, c).

Definition throw {A} (e : exn) : M A := fun c => (inl e, c).

Definition bind {A B} (m : M A) (f : A -> M B) : M B :=
  fun c =>
    match m c with
    | (inr a, c') => f a c'
    | (inl e, c') => (inl e, c')
    end.

Definition lift {A} (r : result A) : M A :=
  match r with
  | inr a => ret a
  | inl e => throw e
  end.

Declare Scope conn_scope.
Delimit Scope conn_scope with conn.
Notation "x <- m ;; k" := (bind m (fun x => k))
  (at level 61, m at next level, right associativity) : conn_scope.
Notation "m ;;; k" := (bind m (fun _ => k))
  (at level 61, right associativity) : conn_scope.

Definition with_users (d : db) (l : list user_row) : db :=
  {| users := l; products := products d;
     product_variants := product_variants d; coupons := coupons d;
     orders := orders d; order_items := order_items d |}.

Definition with_orders (d : db) (l : list order_row) : db :=
  {| users := users d; products := products d;
     product_variants := product_variants d; coupons := coupons d;
     orders := l; order_items := order_items d |}.

Definition with_order_items (d : db) (l : list order_item_row) : db :=
  {| users := users d; products := products d;
     product_variants := product_variants d; coupons := coupons d;
     orders := orders d; order_items := l |}.

(** An element of [resolved]: [{ variantId: row.id, qty, unit }]. *)
Record line : Type := {
  r_variantId : Z;
  r_qty : number;
  r_unit : number
}.

(** What the handler leaves behind: the status and body of the response, the
    committed data, and what it did on the pool and the connection. *)
Record outcome : Type := {
  response : nat * jsval;
  store : db;
  events : list event
}.

(** What the handler leaves behind when [conn.rollback()] may reject: the
    response, if one is sent; the error the handler ends with, if any; the
    committed data; and what it did on the pool and the connection. *)
Record run : Type := {
  answer : option (nat * jsval);
  thrown : option exn;
  kept : db;
  history : list event
}.

(** An outcome as a run: the response was sent and nothing was thrown. *)
Definition settled (o : outcome) : run :=
  {| answer := Some (response o); thrown := None;
     kept := store o; history := events o |}.

(** ** The statements, as the store runs them *)

Section Statements.
Context {P : Platform}.

(** The rows [WHERE email=?] keeps. *)
Definition users_by_email (d : db) (e : jsval) : list user_row :=
  filter (fun u => sql_eq (user_email u) e) (users d).

(** The row the INSERT into [users] adds. *)
Definition new_user (d : db) (e p : jsval) : user_row :=
  {| user_id := fresh_id (map user_id (users d));
     first_name := ""; last_name := "";
     user_email := e; user_phone := p; password_hash := "" |}.

(** The rows [WHERE id=?] keeps. *)
Definition variants_by_id (d : db) (i : jsval) : list variant_row :=
  filter (fun v => sql_eq (JNum (num_of_Z (variant_id v))) i)
         (product_variants d).

(** The join of the variants with their products, restricted to the SKU and
    to the weight, cut by [LIMIT 1]. *)
Definition variants_by_sku (d : db) (s : jsval) (g : Q) : list variant_row :=
  firstn 1
    (flat_map
       (fun v =>
          map (fun _ => v)
            (filter
               (fun p =>
                  Z.eqb (product_id p) (variant_product v)
                  && sql_eq (JStr (sku p)) s
                  && Qeq_bool (grams v) g)
               (products d)))
       (product_variants d)).

(** The columns the coupon SELECT returns for a row, at the time [now]. *)
Definition view_coupon (now : Z) (c : coupon_row) : coupon_view :=
  {| c_discount_type := discount_type c; c_value := value c;
     c_min_subtotal := min_subtotal c; c_is_active := is_active c;
     c_valid := match expires_at c with
                | None => true
                | Some t => Z.ltb now t
                end |}.

Definition coupons_by_code (now : Z) (d : db) (k : jsval) : list coupon_view :=
  map (view_coupon now)
      (filter (fun c => sql_eq (JStr (code c)) k) (coupons d)).

(** The row the INSERT into [orders] adds. *)
Definition new_order (d : db) (userId : option Z) (s : jsval) (t : Q)
  : order_row :=
  {| order_id := fresh_id (map order_id (orders d));
     order_user := userId; session_id := s; total_amount := t;
     status := "created"; payment_reference := None |}.

(** The row the INSERT into [order_items] adds. *)
Definition new_order_item (d : db) (orderId variantId : Z) (q u : Q)
  : order_item_row :=
  {| item_id := fresh_id (map item_id (order_items d));
     item_order := orderId; item_variant := variantId;
     quantity := q; unit_price := u |}.
End Statements.

(** ** The request, as the handler destructures it *)

Definition email_of (body : jsval) : jsval :=
  field (js_or body (JObj [])) "email" (JStr "").

Definition phone_of (body : jsval) : jsval :=
  field (js_or body (JObj [])) "phone" (JStr "").

Definition items_of (body : jsval) : jsval :=
  field (js_or body (JObj [])) "items" (JArr []).

Definition coupon_of (body : jsval) : jsval :=
  field (js_or body (JObj [])) "couponCode" (JStr "").

Definition session_of (body : jsval) : jsval :=
  field (js_or body (JObj [])) "sessionId" (JStr "").

(** The [items] member the client posted: [undefined] when the body is not an
    object or has no such member. *)
Definition posted_items (body : jsval) : jsval :=
  match body with
  | JObj props => assoc "items" props
  | _ => JUndefined
  end.

(** ** The handler *)

Section Checkout.
Context {P : Platform}.
Variable faults : nat -> option string.
Variable now : Z.

Local Open Scope conn_scope.

Definition logged (c : conn) (ev : event) (d : db) : conn :=
  {| committed := committed c; tx := d;
     ncalls := S (ncalls c); trace := trace c ++ [ev] |}.

(** [await conn.query(sql, params)]: the call is logged; it raises the
    planned fault if there is one, else the store runs the statement on the
    data of the open transaction. *)
Definition store_call {A} (s : stmt) (op : db -> result (A * db)) : M A :=
  fun c =>
    match faults (ncalls c) with
    | Some msg => (inl (Error msg), logged c (EvQuery s) (tx c))
    | None =>
        match op (tx c) with
        | inr (a, d) => (inr a, logged c (EvQuery s) d)
        | inl e => (inl e, logged c (EvQuery s) (tx c))
        end
    end.

(** [await conn.beginTransaction()] *)
Definition begin_transaction : M unit :=
  fun c =>
    match faults (ncalls c) with
    | Some msg => (inl (Error msg), logged c EvBegin (tx c))
    | None => (inr tt, logged c EvBegin (committed c))
    end.

(** [await conn.commit()] *)
Definition commit : M unit :=
  fun c =>
    match faults (ncalls c) with
    | Some msg => (inl (Error msg), logged c EvCommit (tx c))
    | None =>
        (inr tt, {| committed := tx c; tx := tx c;
                    ncalls := S (ncalls c); trace := trace c ++ [EvCommit] |})
    end.

(** [await conn.rollback()] when it succeeds: the open transaction is
    dropped.  [rollback_call] below is the call that may reject. *)
Definition rollback (c : conn) : conn :=
  {| committed := committed c; tx := committed c;
     ncalls := ncalls c; trace := trace c ++ [EvRollback] |}.

(** [conn.release()] *)
Definition release (c : conn) : conn :=
  {| committed := committed c; tx := tx c;
     ncalls := ncalls c; trace := trace c ++ [EvRelease] |}.

(** [SELECT id FROM users WHERE email=?] *)
Definition select_user_by_email (email : jsval) : M (list user_row) :=
  store_call (SelectUserByEmail email) (fun d =>
    match bind_value email with
    | inr e => inr (users_by_email d e, d)
    | inl x => inl x
    end).

(** [INSERT INTO users (first_name,last_name,email,phone,password_hash)
     VALUES ("","",?,?, "")]; the result is [insertId]. *)
Definition insert_user (email phone : jsval) : M Z :=
  store_call (InsertUser email phone) (fun d =>
    match bind_value email, bind_value phone with
    | inr e, inr p =>
        inr (user_id (new_user d e p),
             with_users d (users d ++ [new_user d e p]))
    | inl x, _ => inl x
    | _, inl x => inl x
    end).

(** [SELECT id, price FROM product_variants WHERE id=?] *)
Definition select_variant_by_id (id : jsval) : M (list variant_row) :=
  store_call (SelectVariantById id) (fun d =>
    match bind_value id with
    | inr i => inr (variants_by_id d i, d)
    | inl x => inl x
    end).

(** [SELECT v.id, v.price FROM product_variants v
     JOIN products p ON p.id=v.product_id
     WHERE p.sku=? AND v.grams=? LIMIT 1] *)
Definition select_variant_by_sku (psku : jsval) (g : number)
  : M (list variant_row) :=
  store_call (SelectVariantBySku psku g) (fun d =>
    match bind_value psku, bind_decimal g with
    | inr s, inr gq => inr (variants_by_sku d s gq, d)
    | inl x, _ => inl x
    | _, inl x => inl x
    end).

(** [SELECT discount_type, value, min_subtotal, is_active,
            (expires_at IS NULL OR expires_at > NOW()) AS valid
     FROM coupons WHERE code=?] *)
Definition select_coupon (ccode : jsval) : M (list coupon_view) :=
  store_call (SelectCoupon ccode) (fun d =>
    match bind_value ccode with
    | inr k => inr (coupons_by_code now d k, d)
    | inl x => inl x
    end).

(** [INSERT INTO orders (user_id, session_id, total_amount, status,
     payment_reference) VALUES (?,?,?,?,NULL)] with the status 'created';
    the result is [insertId]. *)
Definition insert_order (userId : option Z) (sessionId : jsval)
    (total : number) : M Z :=
  store_call (InsertOrder userId sessionId total) (fun d =>
    match bind_value sessionId, bind_decimal total with
    | inr s, inr t =>
        inr (order_id (new_order d userId s t),
             with_orders d (orders d ++ [new_order d userId s t]))
    | inl x, _ => inl x
    | _, inl x => inl x
    end).

(** [INSERT INTO order_items (order_id, product_variant_id, quantity,
     unit_price) VALUES (?,?,?,?)] *)
Definition insert_order_item (orderId variantId : Z) (qty price1 : number)
  : M unit :=
  store_call (InsertOrderItem orderId variantId qty price1) (fun d =>
    match bind_decimal qty, bind_decimal price1 with
    | inr q, inr u =>
        inr (tt, with_order_items d
                   (order_items d ++ [new_order_item d orderId variantId q u]))
    | inl x, _ => inl x
    | _, inl x => inl x
    end).

(** find/create user (by email) - optional: the value of [userId]. *)
Definition find_or_create_user (email phone : jsval) : M (option Z) :=
  if truthy email then
    u <- select_user_by_email email;;
    match u with
    | u0 :: _ => ret (Some (user_id u0))
    | [] => ins <- insert_user email phone;; ret (Some ins)
    end
  else ret None.

(** The body of the loop up to the [throw]: the value of [row]. *)
Definition resolve_variant (it : jsval) : M variant_row :=
  vid <- lift (get_prop it "variantId");;
  r <- (if truthy vid then select_variant_by_id vid
        else
          psku <- lift (get_prop it "productSku");;
          g <- lift (get_prop it "grams");;
          select_variant_by_sku psku (to_number g));;
  match r with
  | row :: _ => ret row
  | [] => throw (Error "Variant not found")
  end.

(** resolve variants & prices from DB: [for (const it of items)], started
    with [resolved = []] and [subtotal = 0]. *)
Fixpoint resolve_items (items : list jsval) (resolved : list line)
    (subtotal : number) : M (list line * number) :=
  match items with
  | [] => ret (resolved, subtotal)
  | it :: rest =>
      row <- resolve_variant it;;
      q <- lift (get_prop it "qty");;
      let qty := coerce_qty q in
      let unit1 := Fin (price row) in
      resolve_items rest
        (resolved ++ [{| r_variantId := variant_id row;
                         r_qty := qty; r_unit := unit1 |}])
        (nadd subtotal (nmul qty unit1))
  end.

(** The discount a coupon row gives before the clamp. *)
Definition coupon_amount (c : coupon_view) (subtotal : number) : number :=
  if String.eqb (c_discount_type c) "percent"
  then ndiv (math_round
               (nmul (nmul subtotal (ndiv (Fin (c_value c)) (Fin 100)))
                     (Fin 100)))
            (Fin 100)
  else Fin (c_value c).

(** The condition of the inner [if] of the coupon block. *)
Definition coupon_applies (c : list coupon_view) (subtotal : number) : bool :=
  match c with
  | c0 :: _ =>
      c_is_active c0 && c_valid c0 && nge subtotal (Fin (c_min_subtotal c0))
  | [] => false
  end.

(** coupon: the value of [discount]. *)
Definition apply_coupon (couponCode : jsval) (subtotal : number) : M number :=
  if truthy couponCode then
    c <- select_coupon couponCode;;
    match c with
    | c0 :: _ =>
        if c_is_active c0 && c_valid c0
           && nge subtotal (Fin (c_min_subtotal c0))
        then ret (math_min (coupon_amount c0 subtotal) subtotal)
        else ret (Fin 0)
    | [] => ret (Fin 0)
    end
  else ret (Fin 0).

(** [for (const r of resolved)] *)
Fixpoint insert_items (orderId : Z) (resolved : list line) : M unit :=
  match resolved with
  | [] => ret tt
  | r :: rest =>
      insert_order_item orderId (r_variantId r) (r_qty r) (r_unit r);;;
      insert_items orderId rest
  end.

Definition success_body (orderId : Z) (subtotal discount total : number)
  : jsval :=
  JObj [("ok", JBool true); ("orderId", JNum (num_of_Z orderId));
        ("subtotal", JNum subtotal); ("discount", JNum discount);
        ("total", JNum total)].

Definition failure_body (msg : string) : jsval :=
  JObj [("ok", JBool false); ("error", JStr msg)].

(** The [try] block; its value is the argument of [res.json]. *)
Definition try_block (email phone couponCode sessionId : jsval)
    (items : list jsval) : M jsval :=
  begin_transaction;;;
  userId <- find_or_create_user email phone;;
  rs <- resolve_items items [] (Fin 0);;
  let resolved := fst rs in
  let subtotal := snd rs in
  discount <- apply_coupon couponCode subtotal;;
  let total := math_max (Fin 0) (nsub subtotal discount) in
  orderId <- insert_order userId sessionId total;;
  insert_items orderId resolved;;;
  commit;;;
  ret (success_body orderId subtotal discount total).

(** The connection [pool.getConnection()] hands over. *)
Definition acquired (d : db) : conn :=
  {| committed := d; tx := d; ncalls := 0; trace := [EvAcquire] |}.

(** [app.post('/api/checkout', ...)] on the request body [body], the store
    holding [d], on a connection whose [rollback()] succeeds;
    [checkout_handler] below is the handler whatever [rollback()] does. *)
Definition checkout (d : db) (body : jsval) : outcome :=
  let b := js_or body (JObj []) in
  let email := field b "email" (JStr "") in
  let phone := field b "phone" (JStr "") in
  let items := field b "items" (JArr []) in
  let couponCode := field b "couponCode" (JStr "") in
  let sessionId := field b "sessionId" (JStr "") in
  match items with
  | JArr (it :: rest) =>
      match try_block email phone couponCode sessionId (it :: rest)
              (acquired d) with
      | (inr json, c) =>
          let c' := release c in
          {| response := (200%nat, json); store := committed c';
             events := trace c' |}
      | (inl e, c) =>
          let c' := release (rollback c) in
          {| response := (500%nat, failure_body (message e));
             store := committed c'; events := trace c' |}
      end
  | _ =>
      {| response := (400%nat, failure_body "Cart is empty");
         store := d; events := [] |}
  end.
(** The [try] block of the request [body], on a fresh connection. *)
Definition attempt (d : db) (body : jsval) (items : list jsval)
  : result jsval * conn :=
  try_block (email_of body) (phone_of body) (coupon_of body)
    (session_of body) items (acquired d).

(** [await conn.rollback()]: [rb] is the error it rejects with, if any (a
    connection that was lost rejects every call, this one too).  The call is
    logged either way; a rollback that rejects drops nothing. *)
Definition rollback_call (rb : option string) : M unit :=
  fun c =>
    match rb with
    | None => (inr tt, rollback c)
    | Some msg =>
        (inl (Error msg),
         {| committed := committed c; tx := tx c;
            ncalls := ncalls c; trace := trace c ++ [EvRollback] |})
    end.

(** The [catch] block for the error [e]; its value is the response it
    sends. *)
Definition catch_block (rb : option string) (e : exn) : M (nat * jsval) :=
  rollback_call rb;;;
  ret (500%nat, failure_body (message e)).

(** [app.post('/api/checkout', ...)] whatever [rollback()] does: an error
    raised inside the [catch] block leaves the handler once [finally] has
    run, and no response is sent. *)
Definition checkout_handler (rb : option string) (d : db) (body : jsval)
  : run :=
  let b := js_or body (JObj []) in
  let email := field b "email" (JStr "") in
  let phone := field b "phone" (JStr "") in
  let items := field b "items" (JArr []) in
  let couponCode := field b "couponCode" (JStr "") in
  let sessionId := field b "sessionId" (JStr "") in
  match items with
  | JArr (it :: rest) =>
      match try_block email phone couponCode sessionId (it :: rest)
              (acquired d) with
      | (inr json, c) =>
          let c' := release c in
          {| answer := Some (200%nat, json); thrown := None;
             kept := committed c'; history := trace c' |}
      | (inl e, c) =>
          match catch_block rb e c with
          | (inr sent, c1) =>
              let c' := release c1 in
              {| answer := Some sent; thrown := None;
                 kept := committed c'; history := trace c' |}
          | (inl e', c1) =>
              let c' := release c1 in
              {| answer := None; thrown := Some e';
                 kept := committed c'; history := trace c' |}
          end
      end
  | _ =>
      {| answer := Some (400%nat, failure_body "Cart is empty");
         thrown := None; kept := d; history := [] |}
  end.
End Checkout.

(** ** What a run may do *)

(** [d'] holds the rows of [d], unchanged and in place, and possibly new rows
    of users, orders and order items after them. *)
Definition extends (d d' : db) : Prop :=
  (exists l, users d' = users d ++ l)
  /\ products d' = products d
  /\ product_variants d' = product_variants d
  /\ coupons d' = coupons d
  /\ (exists l, orders d' = orders d ++ l)
  /\ (exists l, order_items d' = order_items d ++ l).

(** The events of an open transaction: no traffic with the pool, no rollback,
    and no statement other than a SELECT or an INSERT. *)
Definition in_transaction (ev : event) : Prop :=
  match ev with
  | EvBegin | EvCommit => True
  | EvQuery s => kind_of s = KSelect \/ kind_of s = KInsert
  | EvAcquire | EvRollback | EvRelease => False
  end.

Record advances (c c' : conn) : Prop := {
  adv_committed : committed c' = committed c;
  adv_tx : extends (tx c) (tx c');
  adv_trace : exists evs, trace c' = trace c ++ evs /\ Forall in_transaction evs
}.

(** Whatever its result, [m] leaves the committed data alone, only adds rows
    to the open transaction and only logs events of a transaction. *)
Definition quiet {A} (m : M A) : Prop :=
  forall c r c', m c = (r, c') -> advances c c'.

(** [m] ends with the commit: when it raises, the committed data is as it was;
    when it returns, what the transaction had reached is committed. *)
Definition closing {A} (m : M A) : Prop :=
  forall c r c',
    m c = (r, c') ->
    match r with
    | inl _ => advances c c'
    | inr _ =>
        exists c1, advances c c1 /\ committed c' = tx c1
                   /\ trace c' = trace c1 ++ [EvCommit]
    end.



(** A statement that reads, or adds rows: neither UPDATE nor DELETE. *)
Definition reads_or_inserts (ev : event) : Prop :=
  match ev with
  | EvQuery s => kind_of s = KSelect \/ kind_of s = KInsert
  | _ => True
  end.

(** ** What a successful checkout computes, read off the store *)

Section Expected.
Context {P : Platform}.
Variable now : Z.

(** The value of [userId] and the [users] table after the first step. *)
Definition resolved_user (d : db) (email phone : jsval) : option Z :=
  if truthy email then
    match users_by_email d email with
    | u0 :: _ => Some (user_id u0)
    | [] => Some (user_id (new_user d email phone))
    end
  else None.

Definition users_after (d : db) (email phone : jsval) : list user_row :=
  if truthy email then
    match users_by_email d email with
    | _ :: _ => users d
    | [] => users d ++ [new_user d email phone]
    end
  else users d.

(** The row an item resolves to, if any. *)
Definition variant_for (d : db) (it : jsval) : option variant_row :=
  match get_prop it "variantId" with
  | inr vid =>
      if truthy vid then hd_error (variants_by_id d vid)
      else
        match get_prop it "productSku", get_prop it "grams" with
        | inr psku, inr g =>
            match bind_value psku, to_number g with
            | inr s, Fin gq => hd_error (variants_by_sku d s gq)
            | _, _ => None
            end
        | _, _ => None
        end
  | inl _ => None
  end.

(** The quantity of an item. *)
Definition qty_of (it : jsval) : number :=
  match get_prop it "qty" with
  | inr q => coerce_qty q
  | inl _ => NaN
  end.

Definition line_for (d : db) (it : jsval) : option line :=
  match variant_for d it with
  | Some row =>
      Some {| r_variantId := variant_id row; r_qty := qty_of it;
              r_unit := Fin (price row) |}
  | None => None
  end.

Fixpoint resolved_lines (d : db) (items : list jsval) : option (list line) :=
  match items with
  | [] => Some []
  | it :: rest =>
      match line_for d it, resolved_lines d rest with
      | Some l, Some ls => Some (l :: ls)
      | _, _ => None
      end
  end.

(** The subtotal as the loop accumulates it. *)
Definition accumulate (ls : list line) (start : number) : number :=
  fold_left (fun s l => nadd s (nmul (r_qty l) (r_unit l))) ls start.

(** The value of [discount] after the coupon block. *)
Definition discount_for (d : db) (couponCode : jsval) (subtotal : number)
  : number :=
  if truthy couponCode then
    match coupons_by_code now d couponCode with
    | c0 :: _ =>
        if c_is_active c0 && c_valid c0
           && nge subtotal (Fin (c_min_subtotal c0))
        then math_min (coupon_amount c0 subtotal) subtotal
        else Fin 0
    | [] => Fin 0
    end
  else Fin 0.

(** The lookup of an item runs and finds no row. *)
Definition no_row_found (d : db) (it : jsval) : bool :=
  match get_prop it "variantId" with
  | inr vid =>
      if truthy vid then
        match variants_by_id d vid with [] => true | _ :: _ => false end
      else
        match get_prop it "productSku", get_prop it "grams" with
        | inr psku, inr g =>
            match bind_value psku, to_number g with
            | inr s, Fin gq =>
                match variants_by_sku d s gq with
                | [] => true
                | _ :: _ => false
                end
            | _, _ => false
            end
        | _, _ => false
        end
  | inl _ => false
  end.

(** The order item row that stores a line of [resolved] for an order. *)
Definition stores_line (orderId : Z) (l : line) (r : order_item_row) : Prop :=
  item_order r = orderId /\ item_variant r = r_variantId l
  /\ Fin (quantity r) = r_qty l /\ Fin (unit_price r) = r_unit l.


Definition found_or_throw (rows : list variant_row) : result variant_row :=
  match rows with
  | row :: _ => inr row
  | [] => inl (Error "Variant not found")
  end.

Definition finite_line (l : line) : Prop :=
  exists q u, r_qty l = Fin q /\ r_unit l = Fin u.

Definition line_priced (l : line) : Prop :=
  (forall x, r_qty l = Fin x -> 1 <= x)
  /\ exists u, r_unit l = Fin u /\ 0 <= u.
End Expected.

(** ** A platform and a catalogue for the examples *)

Fixpoint digits_value (s : string) (acc : Z) : option Z :=
  match s with
  | EmptyString => Some acc
  | String c rest =>
      let n := Z.of_nat (Ascii.nat_of_ascii c) in
      if ((48 <=? n) && (n <=? 57))%Z
      then digits_value rest (10 * acc + (n - 48))%Z
      else None
  end.

(** The examples bind strings and numbers only, and convert no string other
    than a run of decimal digits to a number; on these the platform below is
    the language's and an exact comparison in the store. *)
#[local] Instance plain_platform : Platform := {|
  StringToNumber s :=
    match digits_value s 0 with
    | Some z => num_of_Z z
    | None => NaN
    end;
  ObjectToString _ := "[object Object]";
  sql_eq col p :=
    match col, p with
    | JStr a, JStr b => String.eqb a b
    | JNum (Fin a), JNum (Fin b) => Qeq_bool a b
    | _, _ => false
    end
|}.

Definition no_faults : nat -> option string := fun _ => None.

(** Two products, three variants, and coupons of every sort. *)
Definition shop : db :=
  {| users :=
       [{| user_id := 1; first_name := "Ada"; last_name := "L";
           user_email := JStr "ada@example.com"; user_phone := JStr "111";
           password_hash := "h" |}];
     products :=
       [{| product_id := 1; sku := "ABC" |};
        {| product_id := 2; sku := "XYZ" |}];
     product_variants :=
       [{| variant_id := 1; variant_product := 1; grams := 250; price := 25 |};
        {| variant_id := 2; variant_product := 1; grams := 500; price := 10 |};
        {| variant_id := 3; variant_product := 2; grams := 100;
           price := 4 # 100 |}];
     coupons :=
       [{| code := "SAVE10"; discount_type := "percent"; value := 10;
           min_subtotal := 0; is_active := true; expires_at := None |};
        {| code := "FLAT30"; discount_type := "fixed"; value := 30;
           min_subtotal := 0; is_active := true; expires_at := Some 2000%Z |};
        {| code := "OLD"; discount_type := "fixed"; value := 5;
           min_subtotal := 0; is_active := true; expires_at := Some 500%Z |};
        {| code := "OFF"; discount_type := "fixed"; value := 5;
           min_subtotal := 0; is_active := false; expires_at := None |};
        {| code := "BIG"; discount_type := "fixed"; value := 5;
           min_subtotal := 1000; is_active := true; expires_at := None |}];
     orders := [];
     order_items := [] |}.

(** The same shop after a coupon with a negative value was entered. *)
Definition careless_shop : db :=
  {| users := users shop; products := products shop;
     product_variants := product_variants shop;
     coupons :=
       coupons shop
       ++ [{| code := "NEG"; discount_type := "fixed"; value := -5;
              min_subtotal := 0; is_active := true; expires_at := None |}];
     orders := orders shop; order_items := order_items shop |}.

Definition by_id (id : Z) (qty : jsval) : jsval :=
  JObj [("variantId", JNum (num_of_Z id)); ("qty", qty)].

Definition by_sku (psku : string) (g : Z) (qty : jsval) : jsval :=
  JObj [("productSku", JStr psku); ("grams", JNum (num_of_Z g)); ("qty", qty)].

Definition jnum (z : Z) : jsval := JNum (num_of_Z z).

(** A new customer; the second item is of a weight the product is not sold
    in. *)
Definition abandoned_cart : jsval :=
  JObj [("email", JStr "new@example.com"); ("phone", JStr "222");
        ("items", JArr [by_id 1 (jnum 2); by_sku "ABC" 777 (jnum 1)])].

(** A new customer, two items, the second without a quantity, a fixed coupon
    that is still valid at the time 1000. *)
Definition new_user_cart : jsval :=
  JObj [("email", JStr "new@example.com"); ("phone", JStr "222");
        ("sessionId", JStr "s-1");
        ("items", JArr [by_id 1 (jnum 2); by_sku "ABC" 500 JUndefined]);
        ("couponCode", JStr "FLAT30")].

(** A known customer who gives another phone, and a coupon expired at the
    time 1000. *)
Definition known_user_cart : jsval :=
  JObj [("email", JStr "ada@example.com"); ("phone", JStr "999");
        ("items", JArr [by_id 1 (jnum 2)]); ("couponCode", JStr "OLD")].


(** One unit of the variant 2 with the coupon of negative value. *)
Definition negative_cart : jsval :=
  JObj [("items", JArr [by_id 2 (jnum 1)]); ("couponCode", JStr "NEG")].


(** An item that names the variant id 0 and also a SKU and a weight. *)
Definition zero_id_item : jsval :=
  JObj [("variantId", jnum 0); ("productSku", JStr "ABC");
        ("grams", jnum 500); ("qty", jnum 1)].

Definition zero_id_cart : jsval := JObj [("items", JArr [zero_id_item])].

(** ** The amounts a checkout sends to the store *)




(** ** The catalogue listing: [GET /api/products] *)

(** [products] and [product_variants] with the columns the listing reads.  A
    column the handler only passes on holds the value the driver returns for
    it, [JNull] for NULL. *)
Record listed_product : Type := {
  lp_id : Z;
  lp_sku : jsval;
  lp_name : jsval;
  lp_description : jsval;
  lp_image_url : jsval;
  lp_status : jsval
}.

Record listed_variant : Type := {
  lv_id : Z;
  lv_product_id : Z;
  lv_label : jsval;
  lv_grams : Q;
  lv_price : Q;
  lv_compare_at_price : option Q;
  lv_image_url : jsval
}.

Record catalogue : Type := {
  cat_products : list listed_product;
  cat_variants : list listed_variant
}.

(** A row of the SELECT: [pid], [psku], [pname], [pdesc], [img], [vid],
    [label], [grams], [price], [compare_at_price]. *)
Record listing_row : Type := {
  row_pid : Z;
  row_psku : jsval;
  row_pname : jsval;
  row_pdesc : jsval;
  row_img : jsval;
  row_vid : Z;
  row_label : jsval;
  row_grams : Q;
  row_price : Q;
  row_compare_at_price : option Q
}.

(** An element of [variants], and a value of the [Map]. *)
Record variant_entry : Type := {
  ve_id : Z;
  ve_label : jsval;
  ve_grams : Q;
  ve_price : number;
  ve_compare : option number;
  ve_image : jsval
}.

Record product_entry : Type := {
  pe_id : Z;
  pe_sku : jsval;
  pe_name : jsval;
  pe_description : jsval;
  pe_image_url : jsval;
  pe_variants : list variant_entry
}.

(** [COALESCE(a, b)] *)
Definition coalesce (a b : jsval) : jsval :=
  match a with
  | JNull => b
  | _ => a
  end.

(** The select list, for a product row and a variant row that join. *)
Definition join_row (p : listed_product) (v : listed_variant) : listing_row :=
  {| row_pid := lp_id p; row_psku := lp_sku p; row_pname := lp_name p;
     row_pdesc := lp_description p;
     row_img := coalesce (lv_image_url v) (lp_image_url p);
     row_vid := lv_id v; row_label := lv_label v; row_grams := lv_grams v;
     row_price := lv_price v;
     row_compare_at_price := lv_compare_at_price v |}.

(** [ORDER BY p.id, v.grams].  The statement leaves the order of rows of one
    product and one weight open; [order_rows] keeps them in the order of the
    join. *)
Definition row_leb (a b : listing_row) : bool :=
  (row_pid a <? row_pid b)%Z
  || ((row_pid a =? row_pid b)%Z && Qle_bool (row_grams a) (row_grams b)).

Fixpoint insert_row (r : listing_row) (l : list listing_row)
  : list listing_row :=
  match l with
  | [] => [r]
  | x :: rest => if row_leb r x then r :: l else x :: insert_row r rest
  end.

Definition order_rows (l : list listing_row) : list listing_row :=
  fold_right insert_row [] l.

Section Listing.
Context {P : Platform}.

(** [FROM products p JOIN product_variants v ON v.product_id = p.id
     WHERE p.status = 'active'], before the ordering. *)
Definition joined_rows (c : catalogue) : list listing_row :=
  flat_map
    (fun p =>
       map (join_row p)
         (filter (fun v => Z.eqb (lv_product_id v) (lp_id p))
                 (cat_variants c)))
    (filter (fun p => sql_eq (lp_status p) (JStr "active")) (cat_products c)).

(** The rows of the SELECT. *)
Definition select_listing (c : catalogue) : list listing_row :=
  order_rows (joined_rows c).
End Listing.

(** The [Map] of the handler: its entries in insertion order. *)
Definition product_map : Type := list (Z * product_entry).

(** [map.has(k)] *)
Definition map_has (k : Z) (m : product_map) : bool :=
  existsb (fun e => Z.eqb (fst e) k) m.

(** [map.get(k)] *)
Fixpoint map_get (k : Z) (m : product_map) : option product_entry :=
  match m with
  | [] => None
  | (k', v) :: rest => if Z.eqb k' k then Some v else map_get k rest
  end.

(** [map.set(k, v)]: a new key goes last, a known key keeps its place. *)
Fixpoint map_set (k : Z) (v : product_entry) (m : product_map) : product_map :=
  match m with
  | [] => [(k, v)]
  | (k', v') :: rest =>
      if Z.eqb k' k then (k', v) :: rest else (k', v') :: map_set k v rest
  end.

(** The object [map.get(k)] changed in place by [f]. *)
Fixpoint map_update (k : Z) (f : product_entry -> product_entry)
    (m : product_map) : product_map :=
  match m with
  | [] => []
  | (k', v) :: rest =>
      if Z.eqb k' k then (k', f v) :: rest else (k', v) :: map_update k f rest
  end.

(** [[...map.values()]] *)
Definition map_values (m : product_map) : list product_entry := map snd m.

(** The object set for a new product. *)
Definition product_of (r : listing_row) : product_entry :=
  {| pe_id := row_pid r; pe_sku := row_psku r; pe_name := row_pname r;
     pe_description := row_pdesc r; pe_image_url := row_img r;
     pe_variants := [] |}.

(** The object pushed for a row. *)
Definition variant_of (r : listing_row) : variant_entry :=
  {| ve_id := row_vid r; ve_label := row_label r; ve_grams := row_grams r;
     ve_price := Fin (row_price r);
     ve_compare :=
       match row_compare_at_price r with
       | None => None
       | Some q => Some (Fin q)
       end;
     ve_image := row_img r |}.

(** [.variants.push(x)] *)
Definition push_variant (x : variant_entry) (e : product_entry)
  : product_entry :=
  {| pe_id := pe_id e; pe_sku := pe_sku e; pe_name := pe_name e;
     pe_description := pe_description e; pe_image_url := pe_image_url e;
     pe_variants := pe_variants e ++ [x] |}.

(** The body of [for (const r of rows)]. *)
Definition group_step (m : product_map) (r : listing_row) : product_map :=
  let m1 :=
    if negb (map_has (row_pid r) m)
    then map_set (row_pid r) (product_of r) m
    else m in
  map_update (row_pid r) (push_variant (variant_of r)) m1.

(** group by product *)
Definition group_rows (rows : list listing_row) : list product_entry :=
  map_values (fold_left group_step rows []).

Definition variant_json (x : variant_entry) : jsval :=
  JObj [("id", JNum (num_of_Z (ve_id x))); ("label", ve_label x);
        ("grams", JNum (Fin (ve_grams x))); ("price", JNum (ve_price x));
        ("compare",
         match ve_compare x with
         | None => JNull
         | Some n => JNum n
         end);
        ("image", ve_image x)].

Definition product_json (e : product_entry) : jsval :=
  JObj [("id", JNum (num_of_Z (pe_id e))); ("sku", pe_sku e);
        ("name", pe_name e); ("description", pe_description e);
        ("image_url", pe_image_url e);
        ("variants", JArr (map variant_json (pe_variants e)))].

Section Products.
Context {P : Platform}.

(** [app.get('/api/products', ...)]: [fault] is the error [pool.query]
    raises, if any. *)
Definition get_products (fault : option string) (c : catalogue)
  : nat * jsval :=
  match fault with
  | None =>
      (200%nat, JArr (map product_json (group_rows (select_listing c))))
  | Some _ => (500%nat, failure_body "Failed to load products")
  end.

(** The products the handler lists when the query succeeds. *)
Definition listing (c : catalogue) : list product_entry :=
  group_rows (select_listing c).
End Products.

(** The order of [ORDER BY p.id, v.grams]. *)
Definition row_le (a b : listing_row) : Prop :=
  (row_pid a < row_pid b)%Z
  \/ (row_pid a = row_pid b /\ row_grams a <= row_grams b).

(** The entry of a product after more of its rows were pushed. *)
Definition with_rows (e : product_entry) (rs : list listing_row)
  : product_entry :=
  {| pe_id := pe_id e; pe_sku := pe_sku e; pe_name := pe_name e;
     pe_description := pe_description e; pe_image_url := pe_image_url e;
     pe_variants := pe_variants e ++ map variant_of rs |}.

(** The rows of a product among rows. *)
Definition rows_of (k : Z) (rows : list listing_row) : list listing_row :=
  filter (fun r => Z.eqb (row_pid r) k) rows.

(** Rows in the order of their product ids. *)
Definition pid_le (a b : listing_row) : Prop := (row_pid a <= row_pid b)%Z.

(** Variants in the order of their weights. *)
Definition grams_le (a b : variant_entry) : Prop := ve_grams a <= ve_grams b.

(** ** The newsletter subscription: [POST /api/newsletter] *)

(** Characters.  A character of a [string] stands for one UTF-16 code unit
    below 256, so the strings of this part are those of Latin-1. *)

(** The white space and line terminators of the language below 256: what
    [trim] strips and what [\s] matches. *)
Definition is_space (c : ascii) : bool :=
  match N_of_ascii c with
  | 9 | 10 | 11 | 12 | 13 | 32 | 160 => true
  | _ => false
  end%N.

(** The lower case of a code unit below 256: the letters A to Z and the
    capital letters from U+00C0 to U+00DE (but the sign U+00D7) move up by
    32. *)
Definition lower_char (c : ascii) : ascii :=
  let n := N_of_ascii c in
  if ((65 <=? n) && (n <=? 90)
      || (192 <=? n) && (n <=? 214)
      || (216 <=? n) && (n <=? 222))%N
  then ascii_of_N (n + 32)
  else c.

Fixpoint trim_start (s : list ascii) : list ascii :=
  match s with
  | c :: rest => if is_space c then trim_start rest else s
  | [] => []
  end.

Definition trim_chars (s : list ascii) : list ascii :=
  rev (trim_start (rev (trim_start s))).

(** [s.trim()] *)
Definition trim (s : string) : string :=
  string_of_list_ascii (trim_chars (list_ascii_of_string s)).

(** [s.toLowerCase()] *)
Definition toLowerCase (s : string) : string :=
  string_of_list_ascii (map lower_char (list_ascii_of_string s)).

(** Regular expressions over characters, and their matches. *)
Inductive regex : Type :=
| Empty
| Eps
| Chr (f : ascii -> bool)
| Seq (a b : regex)
| Alt (a b : regex)
| Star (a : regex).

(** [a+] *)
Definition Plus (a : regex) : regex := Seq a (Star a).

Inductive matches : regex -> list ascii -> Prop :=
| MEps : matches Eps []
| MChr f c : f c = true -> matches (Chr f) [c]
| MSeq a b s t : matches a s -> matches b t -> matches (Seq a b) (s ++ t)
| MAltL a b s : matches a s -> matches (Alt a b) s
| MAltR a b s : matches b s -> matches (Alt a b) s
| MStarNil a : matches (Star a) []
| MStarApp a s t :
    matches a s -> matches (Star a) t -> matches (Star a) (s ++ t).

Fixpoint nullable (r : regex) : bool :=
  match r with
  | Empty => false
  | Eps => true
  | Chr _ => false
  | Seq a b => nullable a && nullable b
  | Alt a b => nullable a || nullable b
  | Star _ => true
  end.

(** What is left of [r] after the character [c]. *)
Fixpoint deriv (c : ascii) (r : regex) : regex :=
  match r with
  | Empty => Empty
  | Eps => Empty
  | Chr f => if f c then Eps else Empty
  | Seq a b =>
      if nullable a then Alt (Seq (deriv c a) b) (deriv c b)
      else Seq (deriv c a) b
  | Alt a b => Alt (deriv c a) (deriv c b)
  | Star a => Seq (deriv c a) (Star a)
  end.

Fixpoint matchb (r : regex) (s : list ascii) : bool :=
  match s with
  | [] => nullable r
  | c :: rest => matchb (deriv c r) rest
  end.

(** [/^r$/.test(s)] *)
Definition test (r : regex) (s : string) : bool :=
  matchb r (list_ascii_of_string s).

(** [[^@\s]] *)
Definition not_at_space (c : ascii) : bool :=
  negb (Ascii.eqb c "@") && negb (is_space c).

Definition is_char (x c : ascii) : bool := Ascii.eqb c x.

(** [/^[^@\s]+@[^@\s]+\.[^@\s]+$/] *)
Definition email_pattern : regex :=
  Seq (Plus (Chr not_at_space))
    (Seq (Chr (is_char "@"))
       (Seq (Plus (Chr not_at_space))
          (Seq (Chr (is_char "."))
             (Plus (Chr not_at_space))))).

(** What the subscription leaves behind: the response, if the handler sends
    one, and the emails bound to the INSERT statements it sent. *)
Record subscription : Type := {
  nl_response : option (nat * jsval);
  nl_inserted : list string
}.

Section Newsletter.
Context {P : Platform}.
(** Number::toString, behind [String(n)] for a number [n]. *)
Variable NumberToString : number -> string.

(** [String(v)] *)
Definition js_string (v : jsval) : string :=
  match v with
  | JUndefined => "undefined"
  | JNull => "null"
  | JBool b => if b then "true" else "false"
  | JNum n => NumberToString n
  | JStr s => s
  | JArr _ | JObj _ => ObjectToString v
  end.

(** [String(req.body.email || '').trim().toLowerCase()] *)
Definition normalized_email (v : jsval) : string :=
  toLowerCase (trim (js_string (js_or v (JStr "")))).

(** [app.post('/api/newsletter', ...)]: [fault] is the error [pool.query]
    raises, if any.  Reading [email] off a body that is [undefined] or [null]
    throws before anything is answered. *)
Definition newsletter (fault : option string) (body : jsval) : subscription :=
  match get_prop body "email" with
  | inl _ => {| nl_response := None; nl_inserted := [] |}
  | inr v =>
      let email := normalized_email v in
      if negb (test email_pattern email)
      then {| nl_response := Some (400%nat, failure_body "Invalid email");
              nl_inserted := [] |}
      else
        match fault with
        | None =>
            {| nl_response := Some (200%nat, JObj [("ok", JBool true)]);
               nl_inserted := [email] |}
        | Some _ =>
            {| nl_response :=
                 Some (500%nat, failure_body "Failed to subscribe");
               nl_inserted := [email] |}
        end
  end.
End Newsletter.

(** The characters of a string. *)
Definition chars (s : string) : list ascii := list_ascii_of_string s.

(** A list that does not begin with white space. *)
Definition no_lead (s : list ascii) : Prop :=
  match s with
  | c :: _ => is_space c = false
  | [] => True
  end.

(** ** More examples *)

(** A second order under the address of [new_user_cart]. *)
Definition returning_cart : jsval :=
  JObj [("email", JStr "new@example.com"); ("phone", JStr "333");
        ("items", JArr [by_id 2 (jnum 1)])].

(** Two units of the variant 2, 20 in all, with the fixed coupon of 30. *)
Definition clamped_cart : jsval :=
  JObj [("items", JArr [by_id 2 (jnum 2)]); ("couponCode", JStr "FLAT30")].

(** A quantity that is no number. *)
Definition worded_cart : jsval :=
  JObj [("items", JArr [by_id 1 (JStr "two")])].


(** A connection that is lost once the transaction is open: every later call
    on it rejects. *)
Definition lost_after_begin : nat -> option string :=
  fun n => if Nat.eqb n 0 then None else Some "Connection lost".

(** A store that is down when the transaction is opened. *)
Definition down_at_begin : nat -> option string :=
  fun n => if Nat.eqb n 0 then Some "Connection lost" else None.

(** A stall with an active product of two variants, the lighter one with an
    image of its own, an inactive product, an active product without
    variants, and an active product of one variant. *)
Definition stall : catalogue :=
  {| cat_products :=
       [{| lp_id := 1; lp_sku := JStr "ABC"; lp_name := JStr "Almonds";
           lp_description := JNull; lp_image_url := JStr "almonds.png";
           lp_status := JStr "active" |};
        {| lp_id := 2; lp_sku := JStr "OLD"; lp_name := JStr "Dates";
           lp_description := JNull; lp_image_url := JNull;
           lp_status := JStr "draft" |};
        {| lp_id := 3; lp_sku := JStr "NEW"; lp_name := JStr "Figs";
           lp_description := JNull; lp_image_url := JNull;
           lp_status := JStr "active" |};
        {| lp_id := 4; lp_sku := JStr "XYZ"; lp_name := JStr "Walnuts";
           lp_description := JStr "Shelled"; lp_image_url := JStr "walnuts.png";
           lp_status := JStr "active" |}];
     cat_variants :=
       [{| lv_id := 10; lv_product_id := 4; lv_label := JStr "100 g";
           lv_grams := 100; lv_price := 4; lv_compare_at_price := Some 5;
           lv_image_url := JNull |};
        {| lv_id := 11; lv_product_id := 1; lv_label := JStr "500 g";
           lv_grams := 500; lv_price := 10; lv_compare_at_price := None;
           lv_image_url := JNull |};
        {| lv_id := 12; lv_product_id := 2; lv_label := JStr "1 kg";
           lv_grams := 1000; lv_price := 7; lv_compare_at_price := None;
           lv_image_url := JNull |};
        {| lv_id := 13; lv_product_id := 1; lv_label := JStr "250 g";
           lv_grams := 250; lv_price := 25 # 4; lv_compare_at_price := None;
           lv_image_url := JStr "almonds-250.png" |}] |}.

(** What the listing of the stall holds for its product 4. *)
Definition walnuts_entry : product_entry :=
  {| pe_id := 4; pe_sku := JStr "XYZ"; pe_name := JStr "Walnuts";
     pe_description := JStr "Shelled"; pe_image_url := JStr "walnuts.png";
     pe_variants :=
       [{| ve_id := 10; ve_label := JStr "100 g"; ve_grams := 100;
           ve_price := Fin 4; ve_compare := Some (Fin 5);
           ve_image := JStr "walnuts.png" |}] |}.

(** The examples convert no number to a string. *)
Definition no_number_text : number -> string := fun _ => "NaN".

Definition padded_subscription : jsval :=
  JObj [("email", JStr "  Ada@Example.COM ")].

Definition plain_subscription : jsval :=
  JObj [("email", JStr "ada@example.com")].

Definition doubled_at_subscription : jsval :=
  JObj [("email", JStr "ada@@example.com")].

(** ** What a computation on the connection may do *)

Lemma extends_refl (d : db) : extends d d.
Proof.
  unfold extends. repeat split; try reflexivity;
    exists []; symmetry; apply app_nil_r.
Qed.

Lemma extends_trans (d1 d2 d3 : db) :
  extends d1 d2 -> extends d2 d3 -> extends d1 d3.
Proof.
  intros (Hu & Hp & Hv & Hc & Ho & Hi) (Hu' & Hp' & Hv' & Hc' & Ho' & Hi').
  destruct Hu as [lu Hu], Ho as [lo Ho], Hi as [li Hi].
  destruct Hu' as [lu' Hu'], Ho' as [lo' Ho'], Hi' as [li' Hi'].
  unfold extends. repeat split; try congruence.
  - exists (lu ++ lu'). rewrite Hu', Hu. symmetry. apply app_assoc.
  - exists (lo ++ lo'). rewrite Ho', Ho. symmetry. apply app_assoc.
  - exists (li ++ li'). rewrite Hi', Hi. symmetry. apply app_assoc.
Qed.

Lemma advances_refl (c : conn) : advances c c.
Proof.
  split; [reflexivity | apply extends_refl |].
  exists []. split; [symmetry; apply app_nil_r | constructor].
Qed.

Lemma advances_trans (c1 c2 c3 : conn) :
  advances c1 c2 -> advances c2 c3 -> advances c1 c3.
Proof.
  intros [H1 H2 (e1 & H3 & H4)] [K1 K2 (e2 & K3 & K4)].
  split.
  - congruence.
  - eapply extends_trans; eassumption.
  - exists (e1 ++ e2). split.
    + rewrite K3, H3. symmetry. apply app_assoc.
    + apply Forall_app. split; assumption.
Qed.

Lemma advances_logged (c : conn) (ev : event) (d : db) :
  in_transaction ev -> extends (tx c) d -> advances c (logged c ev d).
Proof.
  intros Hev Hd. split; simpl; [reflexivity | assumption |].
  exists [ev]. split; [reflexivity | constructor; [assumption | constructor]].
Qed.

Lemma quiet_ret {A} (a : A) : quiet (ret a).
Proof. intros c r c' H. injection H as _ <-. apply advances_refl. Qed.

Lemma quiet_throw {A} (e : exn) : quiet (@throw A e).
Proof. intros c r c' H. injection H as _ <-. apply advances_refl. Qed.

Lemma quiet_lift {A} (x : result A) : quiet (lift x).
Proof. destruct x; [apply quiet_throw | apply quiet_ret]. Qed.

Lemma quiet_bind {A B} (m : M A) (f : A -> M B) :
  quiet m -> (forall a, quiet (f a)) -> quiet (bind m f).
Proof.
  intros Hm Hf c r c' H. unfold bind in H.
  destruct (m c) as [[e | a] c1] eqn:E.
  - injection H as _ <-. eapply Hm; eassumption.
  - eapply advances_trans; [eapply Hm | eapply Hf]; eassumption.
Qed.

(** The two outcomes of a sequence. *)
Lemma bind_inv {A B} (m : M A) (f : A -> M B) (c c' : conn) (r : result B) :
  bind m f c = (r, c') ->
  (exists e, m c = (inl e, c') /\ r = inl e)
  \/ (exists a c1, m c = (inr a, c1) /\ f a c1 = (r, c')).
Proof.
  unfold bind. destruct (m c) as [[e | a] c1] eqn:E; intros H.
  - left. exists e. injection H as <- <-. split; reflexivity.
  - right. exists a, c1. split; [reflexivity | assumption].
Qed.

Lemma bind_ok {A B} (m : M A) (f : A -> M B) (c c' : conn) (b : B) :
  bind m f c = (inr b, c') ->
  exists a c1, m c = (inr a, c1) /\ f a c1 = (inr b, c').
Proof.
  intros H. apply bind_inv in H. destruct H as [(e & _ & H) | H].
  - discriminate.
  - assumption.
Qed.

Section Quiet.
Context {P : Platform}.
Variable faults : nat -> option string.
Variable now : Z.

Lemma quiet_store_call {A} (s : stmt) (op : db -> result (A * db)) :
  kind_of s = KSelect \/ kind_of s = KInsert ->
  (forall d a d', op d = inr (a, d') -> extends d d') ->
  quiet (store_call faults s op).
Proof.
  intros Hs Hop c r c' H. unfold store_call in H.
  destruct (faults (ncalls c)).
  - injection H as _ <-. apply advances_logged; [exact Hs | apply extends_refl].
  - destruct (op (tx c)) as [e | [a d']] eqn:E; injection H as _ <-.
    + apply advances_logged; [exact Hs | apply extends_refl].
    + apply advances_logged; [exact Hs | eapply Hop; eassumption].
Qed.

Lemma extends_with_users (d : db) (l : list user_row) :
  extends d (with_users d (users d ++ l)).
Proof.
  unfold extends; simpl. repeat split; try reflexivity.
  - exists l; reflexivity.
  - exists []; symmetry; apply app_nil_r.
  - exists []; symmetry; apply app_nil_r.
Qed.

Lemma extends_with_orders (d : db) (l : list order_row) :
  extends d (with_orders d (orders d ++ l)).
Proof.
  unfold extends; simpl. repeat split; try reflexivity.
  - exists []; symmetry; apply app_nil_r.
  - exists l; reflexivity.
  - exists []; symmetry; apply app_nil_r.
Qed.

Lemma extends_with_order_items (d : db) (l : list order_item_row) :
  extends d (with_order_items d (order_items d ++ l)).
Proof.
  unfold extends; simpl. repeat split; try reflexivity.
  - exists []; symmetry; apply app_nil_r.
  - exists []; symmetry; apply app_nil_r.
  - exists l; reflexivity.
Qed.

Ltac quiet_call :=
  apply quiet_store_call;
  [ simpl; auto
  | let d := fresh "d" in let a := fresh "a" in let d' := fresh "d'" in
    let H := fresh "H" in
    intros d a d' H;
    repeat match type of H with
           | context [match ?x with _ => _ end] => destruct x
           end;
    try discriminate; injection H as _ <-;
    auto using extends_refl, extends_with_users, extends_with_orders,
      extends_with_order_items ].

Lemma quiet_select_user (email : jsval) :
  quiet (select_user_by_email faults email).
Proof. quiet_call. Qed.

Lemma quiet_insert_user (email phone : jsval) :
  quiet (insert_user faults email phone).
Proof. quiet_call. Qed.

Lemma quiet_select_variant_by_id (id : jsval) :
  quiet (select_variant_by_id faults id).
Proof. quiet_call. Qed.

Lemma quiet_select_variant_by_sku (psku : jsval) (g : number) :
  quiet (select_variant_by_sku faults psku g).
Proof. quiet_call. Qed.

Lemma quiet_select_coupon (k : jsval) :
  quiet (select_coupon faults now k).
Proof. quiet_call. Qed.

Lemma quiet_insert_order (uid : option Z) (sid : jsval) (t : number) :
  quiet (insert_order faults uid sid t).
Proof. quiet_call. Qed.

Lemma quiet_insert_order_item (oid vid : Z) (q u : number) :
  quiet (insert_order_item faults oid vid q u).
Proof. quiet_call. Qed.

Lemma quiet_find_or_create_user (email phone : jsval) :
  quiet (find_or_create_user faults email phone).
Proof.
  unfold find_or_create_user. destruct (truthy email).
  - apply quiet_bind; [apply quiet_select_user |].
    intros [| u0 l].
    + apply quiet_bind; [apply quiet_insert_user | intros; apply quiet_ret].
    + apply quiet_ret.
  - apply quiet_ret.
Qed.

Lemma quiet_resolve_variant (it : jsval) :
  quiet (resolve_variant faults it).
Proof.
  unfold resolve_variant.
  apply quiet_bind; [apply quiet_lift | intros vid].
  apply quiet_bind.
  - destruct (truthy vid).
    + apply quiet_select_variant_by_id.
    + apply quiet_bind; [apply quiet_lift | intros psku].
      apply quiet_bind; [apply quiet_lift | intros g].
      apply quiet_select_variant_by_sku.
  - intros [| row l]; [apply quiet_throw | apply quiet_ret].
Qed.

Lemma quiet_resolve_items (items : list jsval) :
  forall resolved subtotal,
    quiet (resolve_items faults items resolved subtotal).
Proof.
  induction items as [| it rest IH]; intros resolved subtotal; simpl.
  - apply quiet_ret.
  - apply quiet_bind; [apply quiet_resolve_variant | intros row].
    apply quiet_bind; [apply quiet_lift | intros q]. apply IH.
Qed.

Lemma quiet_apply_coupon (k : jsval) (subtotal : number) :
  quiet (apply_coupon faults now k subtotal).
Proof.
  unfold apply_coupon. destruct (truthy k); [| apply quiet_ret].
  apply quiet_bind; [apply quiet_select_coupon |].
  intros [| c0 l]; [apply quiet_ret |].
  destruct (_ && _); apply quiet_ret.
Qed.

Lemma quiet_insert_items (oid : Z) (resolved : list line) :
  quiet (insert_items faults oid resolved).
Proof.
  induction resolved as [| r rest IH]; simpl.
  - apply quiet_ret.
  - apply quiet_bind; [apply quiet_insert_order_item | intros _; exact IH].
Qed.
End Quiet.

(** ** The steps of a run that raises nothing *)

Lemma bind_value_ok (v w : jsval) : bind_value v = inr w -> w = v.
Proof.
  destruct v as [| | b | [q |] | s | l | props]; simpl; intros H;
    try discriminate; injection H as <-; reflexivity.
Qed.

Lemma bind_decimal_ok (n : number) (q : Q) : bind_decimal n = inr q -> n = Fin q.
Proof. destruct n; simpl; intros H; [injection H as <-; reflexivity | discriminate]. Qed.

Lemma with_users_same (d : db) : with_users d (users d) = d.
Proof. destruct d; reflexivity. Qed.

Section Steps.
Context {P : Platform}.
Variable faults : nat -> option string.
Variable now : Z.

Lemma store_call_ok {A} (s : stmt) (op : db -> result (A * db))
      (c c' : conn) (a : A) :
  store_call faults s op c = (inr a, c') ->
  op (tx c) = inr (a, tx c').
Proof.
  unfold store_call. destruct (faults (ncalls c)); [discriminate |].
  destruct (op (tx c)) as [e | [a' d']]; [discriminate |].
  intros H. injection H as <- <-. reflexivity.
Qed.

Lemma begin_transaction_ok (c c' : conn) :
  begin_transaction faults c = (inr tt, c') ->
  tx c' = committed c /\ committed c' = committed c
  /\ trace c' = trace c ++ [EvBegin].
Proof.
  unfold begin_transaction. destruct (faults (ncalls c)); [discriminate |].
  intros H. injection H as <-. simpl. auto.
Qed.

Lemma commit_ok (c c' : conn) :
  commit faults c = (inr tt, c') ->
  committed c' = tx c /\ trace c' = trace c ++ [EvCommit].
Proof.
  unfold commit. destruct (faults (ncalls c)); [discriminate |].
  intros H. injection H as <-. simpl. auto.
Qed.

Lemma find_or_create_user_ok (email phone : jsval) (c c' : conn)
      (uid : option Z) :
  find_or_create_user faults email phone c = (inr uid, c') ->
  uid = resolved_user (tx c) email phone
  /\ tx c' = with_users (tx c) (users_after (tx c) email phone).
Proof.
  unfold find_or_create_user, resolved_user, users_after.
  destruct (truthy email).
  - intros H. apply bind_ok in H. destruct H as (u & c1 & Hsel & H).
    apply store_call_ok in Hsel.
    destruct (bind_value email) as [x | e] eqn:Be; [discriminate |].
    apply bind_value_ok in Be. subst e.
    injection Hsel as Hu Hd. subst u.
    destruct (users_by_email (tx c) email) as [| u0 l].
    + apply bind_ok in H. destruct H as (ins & c2 & Hins & H).
      injection H as <- <-. apply store_call_ok in Hins.
      destruct (bind_value email) as [x | e] eqn:Be; [discriminate |].
      destruct (bind_value phone) as [x | p] eqn:Bp; [discriminate |].
      apply bind_value_ok in Be, Bp. subst e p.
      rewrite <- Hd in Hins. injection Hins as Hid Hd2.
      rewrite <- Hid, <- Hd2. split; reflexivity.
    + injection H as <- <-. rewrite <- Hd, with_users_same.
      split; reflexivity.
  - intros H. injection H as <- <-. rewrite with_users_same.
    split; reflexivity.
Qed.

Lemma lift_ok {A} (x : result A) (c c' : conn) (a : A) :
  lift x c = (inr a, c') -> x = inr a /\ c' = c.
Proof.
  destruct x; simpl; unfold throw, ret; intros H;
    [discriminate | injection H as <- <-; auto].
Qed.

Lemma resolve_variant_ok (it : jsval) (c c' : conn) (row : variant_row) :
  resolve_variant faults it c = (inr row, c') ->
  variant_for (tx c) it = Some row /\ tx c' = tx c.
Proof.
  unfold resolve_variant, variant_for. intros H.
  apply bind_ok in H. destruct H as (vid & c1 & Hvid & H).
  apply lift_ok in Hvid. destruct Hvid as [-> ->].
  apply bind_ok in H. destruct H as (r & c2 & Hr & H).
  destruct r as [| row' l]; [discriminate |]. injection H as <- <-.
  destruct (truthy vid).
  - apply store_call_ok in Hr.
    destruct (bind_value vid) as [x | i] eqn:Bi; [discriminate |].
    apply bind_value_ok in Bi. subst i. injection Hr as Hr Hd.
    rewrite Hr. auto.
  - apply bind_ok in Hr. destruct Hr as (psku & c3 & Hp & Hr).
    apply lift_ok in Hp. destruct Hp as [-> ->].
    apply bind_ok in Hr. destruct Hr as (g & c4 & Hg & Hr).
    apply lift_ok in Hg. destruct Hg as [-> ->].
    apply store_call_ok in Hr.
    destruct (bind_value psku) as [x | s]; [discriminate |].
    destruct (to_number g) as [gq |]; simpl in Hr; [| discriminate].
    injection Hr as Hr Hd. rewrite Hr. auto.
Qed.

Lemma resolve_items_ok (items : list jsval) :
  forall (resolved : list line) (subtotal : number) (c c' : conn)
         (res : list line) (s : number),
    resolve_items faults items resolved subtotal c = (inr (res, s), c') ->
    tx c' = tx c
    /\ exists ls, resolved_lines (tx c) items = Some ls
                  /\ res = resolved ++ ls
                  /\ s = accumulate ls subtotal.
Proof.
  induction items as [| it rest IH]; intros resolved subtotal c c' res s H.
  - injection H as <- <- <-. split; [reflexivity |].
    exists []. rewrite app_nil_r. auto.
  - simpl in H. apply bind_ok in H. destruct H as (row & c1 & Hrow & H).
    apply resolve_variant_ok in Hrow. destruct Hrow as [Hrow Hd1].
    apply bind_ok in H. destruct H as (q & c2 & Hq & H).
    apply lift_ok in Hq. destruct Hq as [Hq ->].
    apply IH in H. destruct H as (Hd & ls & Hls & Hres & Hs).
    split; [congruence |].
    simpl. unfold line_for, qty_of. rewrite Hrow, Hq.
    rewrite Hd1 in Hls. rewrite Hls.
    eexists. split; [reflexivity |]. split.
    + rewrite Hres, <- app_assoc. reflexivity.
    + exact Hs.
Qed.

Lemma apply_coupon_ok (k : jsval) (subtotal : number) (c c' : conn)
      (discount : number) :
  apply_coupon faults now k subtotal c = (inr discount, c') ->
  discount = discount_for now (tx c) k subtotal /\ tx c' = tx c.
Proof.
  unfold apply_coupon, discount_for. destruct (truthy k).
  - intros H. apply bind_ok in H. destruct H as (cs & c1 & Hsel & H).
    apply store_call_ok in Hsel.
    destruct (bind_value k) as [x | k'] eqn:Bk; [discriminate |].
    apply bind_value_ok in Bk. subst k'. injection Hsel as Hcs Hd.
    subst cs.
    destruct (coupons_by_code now (tx c) k) as [| c0 l].
    + injection H as <- <-. auto.
    + destruct (_ && _); injection H as <- <-; auto.
  - intros H. injection H as <- <-. auto.
Qed.

Lemma insert_order_ok (uid : option Z) (sid : jsval) (total : number)
      (c c' : conn) (oid : Z) :
  insert_order faults uid sid total c = (inr oid, c') ->
  exists t, total = Fin t
            /\ oid = order_id (new_order (tx c) uid sid t)
            /\ tx c' = with_orders (tx c)
                         (orders (tx c) ++ [new_order (tx c) uid sid t]).
Proof.
  intros H. apply store_call_ok in H.
  destruct (bind_value sid) as [x | s] eqn:Bs; [discriminate |].
  destruct (bind_decimal total) as [x | t] eqn:Bt; [discriminate |].
  apply bind_value_ok in Bs. apply bind_decimal_ok in Bt. subst s.
  injection H as Ho Hd. exists t. auto.
Qed.

Lemma insert_items_ok (oid : Z) (resolved : list line) :
  forall c c',
    insert_items faults oid resolved c = (inr tt, c') ->
    exists rows, Forall2 (stores_line oid) resolved rows
                 /\ tx c' = with_order_items (tx c)
                              (order_items (tx c) ++ rows).
Proof.
  induction resolved as [| r rest IH]; intros c c' H.
  - injection H as <-. exists []. split; [constructor |].
    rewrite app_nil_r. destruct (tx c); reflexivity.
  - simpl in H. apply bind_ok in H. destruct H as ([] & c1 & Hins & H).
    apply store_call_ok in Hins.
    destruct (bind_decimal (r_qty r)) as [x | q] eqn:Bq; [discriminate |].
    destruct (bind_decimal (r_unit r)) as [x | u] eqn:Bu; [discriminate |].
    apply bind_decimal_ok in Bq, Bu. injection Hins as Hd.
    apply IH in H. destruct H as (rows & Hrows & Hd').
    exists (new_order_item (tx c) oid (r_variantId r) q u :: rows). split.
    + constructor; [| exact Hrows].
      unfold stores_line; simpl. auto.
    + rewrite Hd', <- Hd. simpl. rewrite <- app_assoc. reflexivity.
Qed.
End Steps.

(** ** The [try] block as a whole *)

Lemma closing_bind {A B} (m : M A) (f : A -> M B) :
  quiet m -> (forall a, closing (f a)) -> closing (bind m f).
Proof.
  intros Hm Hf c r c' H. apply bind_inv in H.
  destruct H as [(e & H & ->) | (a & c1 & H & K)].
  - eapply Hm; eassumption.
  - apply Hm in H. apply Hf in K. destruct r as [e | b].
    + eapply advances_trans; eassumption.
    + destruct K as (c2 & K1 & K2 & K3). exists c2. split; [| auto].
      eapply advances_trans; eassumption.
Qed.

Section TryBlock.
Context {P : Platform}.
Variable faults : nat -> option string.
Variable now : Z.

Lemma closing_commit {A} (a : A) :
  closing (bind (commit faults) (fun _ => ret a)).
Proof.
  intros c r c' H. unfold bind, commit, ret in H.
  destruct (faults (ncalls c)); injection H as <- <-.
  - apply advances_logged; [exact I | apply extends_refl].
  - exists c. split; [apply advances_refl | simpl; auto].
Qed.

Variables email phone couponCode sessionId : jsval.
Variable items : list jsval.

(** The events and the committed data of the [try] block, whatever its
    result. *)
Lemma try_block_run (c0 c : conn) (r : result jsval) :
  tx c0 = committed c0 ->
  try_block faults now email phone couponCode sessionId items c0 = (r, c) ->
  exists evs,
    trace c = trace c0 ++ evs /\ Forall in_transaction evs
    /\ match r with
       | inl _ => committed c = committed c0
       | inr _ =>
           extends (committed c0) (committed c)
           /\ exists evs', evs = evs' ++ [EvCommit]
       end.
Proof.
  intros Htx H. unfold try_block in H. apply bind_inv in H.
  destruct H as [(e & H & ->) | ([] & c1 & Hb & H)].
  - unfold begin_transaction in H.
    destruct (faults (ncalls c0)); [| discriminate].
    injection H as _ <-. exists [EvBegin]. simpl.
    repeat split; constructor; [exact I | constructor].
  - apply begin_transaction_ok in Hb. destruct Hb as (Hb1 & Hb2 & Hb3).
    assert (Hc : closing
      (bind (find_or_create_user faults email phone) (fun userId =>
       bind (resolve_items faults items [] (Fin 0)) (fun rs =>
       bind (apply_coupon faults now couponCode (snd rs)) (fun discount =>
       bind (insert_order faults userId sessionId
               (math_max (Fin 0) (nsub (snd rs) discount))) (fun orderId =>
       bind (insert_items faults orderId (fst rs)) (fun _ =>
       bind (commit faults) (fun _ =>
       ret (success_body orderId (snd rs) discount
              (math_max (Fin 0) (nsub (snd rs) discount))))))))))).
    { apply closing_bind; [apply quiet_find_or_create_user | intros uid].
      apply closing_bind; [apply quiet_resolve_items | intros rs].
      apply closing_bind; [apply quiet_apply_coupon | intros discount].
      apply closing_bind; [apply quiet_insert_order | intros oid].
      apply closing_bind; [apply quiet_insert_items | intros _].
      apply closing_commit. }
    apply Hc in H. destruct r as [e | json].
    + destruct H as [H1 H2 (evs & H3 & H4)].
      exists (EvBegin :: evs). split; [| split].
      * rewrite H3, Hb3, <- app_assoc. reflexivity.
      * constructor; [exact I | exact H4].
      * congruence.
    + destruct H as (c2 & [H1 H2 (evs & H3 & H4)] & K1 & K2).
      exists (EvBegin :: evs ++ [EvCommit]). split; [| split; [| split]].
      * rewrite K2, H3, Hb3, <- !app_assoc. reflexivity.
      * constructor; [exact I |]. apply Forall_app. split; [exact H4 |].
        constructor; [exact I | constructor].
      * rewrite K1, <- Hb1. exact H2.
      * exists (EvBegin :: evs). reflexivity.
Qed.

Lemma resolved_lines_users (d : db) (l : list user_row) (its : list jsval) :
  resolved_lines (with_users d l) its = resolved_lines d its.
Proof.
  induction its as [| it rest IH]; simpl; [reflexivity |].
  rewrite IH. reflexivity.
Qed.

(** What the [try] block answers and commits when it raises nothing. *)
Lemma try_block_ok (d : db) (c : conn) (json : jsval) :
  try_block faults now email phone couponCode sessionId items (acquired d)
    = (inr json, c) ->
  exists resolved t rows,
    resolved_lines d items = Some resolved
    /\ math_max (Fin 0)
         (nsub (accumulate resolved (Fin 0))
            (discount_for now d couponCode (accumulate resolved (Fin 0))))
       = Fin t
    /\ json = success_body
                (order_id (new_order d (resolved_user d email phone)
                             sessionId t))
                (accumulate resolved (Fin 0))
                (discount_for now d couponCode (accumulate resolved (Fin 0)))
                (Fin t)
    /\ Forall2
         (stores_line
            (order_id (new_order d (resolved_user d email phone)
                         sessionId t)))
         resolved rows
    /\ committed c =
         {| users := users_after d email phone;
            products := products d;
            product_variants := product_variants d;
            coupons := coupons d;
            orders := orders d ++ [new_order d (resolved_user d email phone)
                                     sessionId t];
            order_items := order_items d ++ rows |}.
Proof.
  intros H. unfold try_block in H.
  apply bind_ok in H. destruct H as ([] & c1 & Hb & H).
  apply begin_transaction_ok in Hb. destruct Hb as (Hb & _ & _).
  simpl in Hb.
  apply bind_ok in H. destruct H as (uid & c2 & Hu & H).
  apply find_or_create_user_ok in Hu. destruct Hu as (Hu & Hd2).
  rewrite Hb in Hu, Hd2.
  apply bind_ok in H. destruct H as ([res s] & c3 & Hr & H).
  apply resolve_items_ok in Hr.
  destruct Hr as (Hd3 & ls & Hls & Hres & Hs). simpl in Hres. subst res.
  rewrite Hd2, resolved_lines_users in Hls. cbn [fst snd] in H.
  apply bind_ok in H. destruct H as (disc & c4 & Hc & H).
  apply apply_coupon_ok in Hc. destruct Hc as (Hdisc & Hd4).
  rewrite Hd3, Hd2 in Hdisc.
  change (discount_for now (with_users d (users_after d email phone))
            couponCode s)
    with (discount_for now d couponCode s) in Hdisc.
  apply bind_ok in H. destruct H as (oid & c5 & Ho & H).
  apply insert_order_ok in Ho. destruct Ho as (t & Ht & Hoid & Hd5).
  rewrite Hd4, Hd3, Hd2 in Hoid, Hd5.
  apply bind_ok in H. destruct H as ([] & c6 & Hi & H).
  apply insert_items_ok in Hi. destruct Hi as (rows & Hrows & Hd6).
  apply bind_ok in H. destruct H as ([] & c7 & Hcm & H).
  apply commit_ok in Hcm. destruct Hcm as (Hcm & _).
  unfold ret in H. rewrite Ht in H. injection H as <- <-.
  exists ls, t, rows. subst s disc uid.
  split; [exact Hls |]. split; [exact Ht |].
  split; [rewrite Hoid; reflexivity |].
  split; [rewrite Hoid in Hrows; exact Hrows |].
  rewrite Hcm, Hd6, Hd5. reflexivity.
Qed.
End TryBlock.

(** ** Runs on which the store raises nothing *)

Lemma bind_value_truthy (v : jsval) : truthy v = true -> bind_value v = inr v.
Proof.
  destruct v as [| | b | [q |] | s | l | props]; simpl; intros H;
    try reflexivity; discriminate.
Qed.

Lemma accumulate_finite (ls : list line) :
  forall start s,
    accumulate ls start = Fin s ->
    (exists s0, start = Fin s0) /\ Forall finite_line ls.
Proof.
  induction ls as [| l rest IH]; intros start s H; simpl in H.
  - split; [exists s; exact H | constructor].
  - apply IH in H. destruct H as ([s0 H] & Hrest).
    destruct start as [x |]; [| discriminate].
    destruct (r_qty l) as [q |] eqn:Eq; [| discriminate].
    destruct (r_unit l) as [u |] eqn:Eu; [| discriminate].
    split; [exists x; reflexivity |].
    constructor; [exists q, u; auto | exact Hrest].
Qed.

Section Total.
Context {P : Platform}.
Variable faults : nat -> option string.
Variable now : Z.
Hypothesis no_fault : forall n, faults n = None.

Lemma store_call_run {A} (s : stmt) (op : db -> result (A * db))
      (c : conn) (a : A) (d' : db) :
  op (tx c) = inr (a, d') ->
  store_call faults s op c = (inr a, logged c (EvQuery s) d').
Proof. intros H. unfold store_call. rewrite no_fault, H. reflexivity. Qed.

Lemma find_or_create_user_total (email phone : jsval) (c : conn) :
  bind_value phone = inr phone ->
  exists c',
    find_or_create_user faults email phone c
      = (inr (resolved_user (tx c) email phone), c')
    /\ tx c' = with_users (tx c) (users_after (tx c) email phone).
Proof.
  intros Hp. unfold find_or_create_user, resolved_user, users_after.
  destruct (truthy email) eqn:Et.
  - apply bind_value_truthy in Et. unfold bind, select_user_by_email.
    erewrite store_call_run by (rewrite Et; reflexivity).
    destruct (users_by_email (tx c) email) as [| u0 l] eqn:Eu.
    + unfold insert_user.
      erewrite store_call_run by (simpl; rewrite Et, Hp; reflexivity).
      eexists. split; [reflexivity |]. simpl. reflexivity.
    + eexists. split; [reflexivity |]. simpl. apply eq_sym, with_users_same.
  - eexists. split; [reflexivity |]. apply eq_sym, with_users_same.
Qed.

Lemma resolve_variant_total (it : jsval) (c : conn) (row : variant_row) :
  variant_for (tx c) it = Some row ->
  exists c', resolve_variant faults it c = (inr row, c') /\ tx c' = tx c.
Proof.
  unfold variant_for, resolve_variant. intros H.
  destruct (get_prop it "variantId") as [e | vid]; [discriminate |].
  unfold bind at 1. cbn [lift ret].
  destruct (truthy vid) eqn:Et.
  - apply bind_value_truthy in Et. unfold bind, select_variant_by_id.
    erewrite store_call_run by (rewrite Et; reflexivity).
    destruct (variants_by_id (tx c) vid) as [| r l]; [discriminate |].
    injection H as <-. eexists. split; reflexivity.
  - destruct (get_prop it "productSku") as [e | psku]; [discriminate |].
    destruct (get_prop it "grams") as [e | g]; [discriminate |].
    destruct (bind_value psku) as [e | s] eqn:Bs; [discriminate |].
    destruct (to_number g) as [gq |] eqn:Eg; [| discriminate].
    unfold bind, select_variant_by_sku. cbn [lift ret].
    erewrite store_call_run by (rewrite Bs, Eg; reflexivity).
    destruct (variants_by_sku (tx c) s gq) as [| r l]; [discriminate |].
    injection H as <-. eexists. split; reflexivity.
Qed.

Lemma resolve_variant_none (it : jsval) (c : conn) :
  no_row_found (tx c) it = true ->
  exists c',
    resolve_variant faults it c = (inl (Error "Variant not found"), c').
Proof.
  unfold no_row_found, resolve_variant. intros H.
  destruct (get_prop it "variantId") as [e | vid]; [discriminate |].
  unfold bind at 1. cbn [lift ret].
  destruct (truthy vid) eqn:Et.
  - apply bind_value_truthy in Et. unfold bind, select_variant_by_id.
    erewrite store_call_run by (rewrite Et; reflexivity).
    destruct (variants_by_id (tx c) vid) as [| r l]; [| discriminate].
    eexists. reflexivity.
  - destruct (get_prop it "productSku") as [e | psku]; [discriminate |].
    destruct (get_prop it "grams") as [e | g]; [discriminate |].
    destruct (bind_value psku) as [e | s] eqn:Bs; [discriminate |].
    destruct (to_number g) as [gq |] eqn:Eg; [| discriminate].
    unfold bind, select_variant_by_sku. cbn [lift ret].
    erewrite store_call_run by (rewrite Bs, Eg; reflexivity).
    destruct (variants_by_sku (tx c) s gq) as [| r l]; [| discriminate].
    eexists. reflexivity.
Qed.

Lemma line_for_inv (d : db) (it : jsval) (l : line) :
  line_for d it = Some l ->
  exists row q,
    variant_for d it = Some row /\ get_prop it "qty" = inr q
    /\ l = {| r_variantId := variant_id row; r_qty := coerce_qty q;
              r_unit := Fin (price row) |}.
Proof.
  unfold line_for, qty_of. intros H.
  destruct (variant_for d it) as [row |] eqn:Ev; [| discriminate].
  injection H as <-. exists row.
  destruct (get_prop it "qty") as [e | q] eqn:Eq.
  - exfalso. unfold variant_for in Ev.
    destruct it; simpl in Eq; try discriminate; simpl in Ev; discriminate.
  - exists q. auto.
Qed.

Lemma resolve_items_none (pre : list jsval) :
  forall (it : jsval) (post : list jsval) (resolved ls : list line)
         (subtotal : number) (c : conn),
    resolved_lines (tx c) pre = Some ls ->
    no_row_found (tx c) it = true ->
    exists c',
      resolve_items faults (pre ++ it :: post) resolved subtotal c
        = (inl (Error "Variant not found"), c').
Proof.
  induction pre as [| x rest IH];
    intros it post resolved ls subtotal c H Hnone.
  - simpl. apply resolve_variant_none in Hnone. destruct Hnone as (c1 & Hn).
    exists c1. unfold bind. rewrite Hn. reflexivity.
  - simpl in H.
    destruct (line_for (tx c) x) as [l |] eqn:El; [| discriminate].
    destruct (resolved_lines (tx c) rest) as [ls' |] eqn:Els; [| discriminate].
    apply line_for_inv in El. destruct El as (row & q & Hrow & Hq & ->).
    apply resolve_variant_total in Hrow. destruct Hrow as (c1 & Hrow & Hd1).
    rewrite <- Hd1 in Els, Hnone.
    destruct (IH it post
                 (resolved ++
                    [{| r_variantId := variant_id row; r_qty := coerce_qty q;
                        r_unit := Fin (price row) |}])
                 ls' (nadd subtotal (nmul (coerce_qty q) (Fin (price row))))
                 c1 Els Hnone) as (c2 & Hrest).
    exists c2. simpl. unfold bind at 1. rewrite Hrow.
    unfold bind at 1. rewrite Hq. cbn [lift ret]. exact Hrest.
Qed.
End Total.

Section Handler.
Context {P : Platform}.
Variable faults : nat -> option string.
Variable now : Z.

Lemma checkout_accepted (d : db) (body it : jsval) (rest : list jsval) :
  items_of body = JArr (it :: rest) ->
  checkout faults now d body =
  match attempt faults now d body (it :: rest) with
  | (inr json, c) =>
      {| response := (200%nat, json); store := committed c;
         events := trace c ++ [EvRelease] |}
  | (inl e, c) =>
      {| response := (500%nat, failure_body (message e));
         store := committed c;
         events := (trace c ++ [EvRollback]) ++ [EvRelease] |}
  end.
Proof.
  intros H. unfold checkout, attempt. cbv zeta.
  unfold items_of in H. rewrite H.
  fold (email_of body) (phone_of body) (coupon_of body) (session_of body).
  destruct (try_block _ _ _ _ _ _ _ _) as [[e | json] c]; reflexivity.
Qed.

Lemma checkout_rejected (d : db) (body : jsval) :
  (forall it rest, items_of body <> JArr (it :: rest)) ->
  checkout faults now d body =
  {| response := (400%nat, failure_body "Cart is empty");
     store := d; events := [] |}.
Proof.
  intros H. unfold checkout. cbv zeta. fold (items_of body).
  destruct (items_of body) as [| | b | n | s | l | props]; try reflexivity.
  destruct l as [| it rest]; [reflexivity |].
  exfalso. eapply H. reflexivity.
Qed.

(** Every accepted request ends in one of two ways. *)
Lemma checkout_ends (d : db) (body it : jsval) (rest : list jsval) :
  items_of body = JArr (it :: rest) ->
  exists evs,
    Forall in_transaction evs
    /\ ((exists e,
           fst (attempt faults now d body (it :: rest)) = inl e
           /\ checkout faults now d body =
              {| response := (500%nat, failure_body (message e));
                 store := d;
                 events := EvAcquire :: evs ++ [EvRollback; EvRelease] |})
        \/ (exists json d',
              fst (attempt faults now d body (it :: rest)) = inr json
              /\ extends d d'
              /\ checkout faults now d body =
                 {| response := (200%nat, json); store := d';
                    events := EvAcquire :: evs ++ [EvCommit; EvRelease] |})).
Proof.
  intros H. rewrite (checkout_accepted d body H).
  destruct (attempt faults now d body (it :: rest)) as [r c] eqn:E.
  unfold attempt in E. apply try_block_run in E; [| reflexivity].
  destruct E as (evs & Htr & Hev & Hr). simpl in Htr.
  destruct r as [e | json].
  - exists evs. split; [exact Hev |]. left. exists e.
    split; [reflexivity |]. simpl in Hr. rewrite Hr, Htr.
    simpl. rewrite <- app_assoc. reflexivity.
  - destruct Hr as (Hext & evs' & ->).
    apply Forall_app in Hev. destruct Hev as [Hev _].
    exists evs'. split; [exact Hev |]. right.
    exists json, (committed c). split; [reflexivity |].
    split; [exact Hext |]. rewrite Htr. simpl.
    rewrite <- app_assoc. reflexivity.
Qed.



Lemma reads_or_inserts_in_transaction (evs : list event) :
  Forall in_transaction evs -> Forall reads_or_inserts evs.
Proof.
  apply Forall_impl. intros [| | s | | |]; simpl; auto.
Qed.

(** The handler on a connection whose rollback succeeds is [checkout]. *)
Lemma checkout_handler_settled (d : db) (body : jsval) :
  checkout_handler faults now None d body
  = settled (checkout faults now d body).
Proof.
  unfold checkout_handler, checkout, settled. cbv zeta.
  destruct (field (js_or body (JObj [])) "items" (JArr []))
    as [| | b | n | s | l | props]; try reflexivity.
  destruct l as [| it rest]; [reflexivity |].
  destruct (try_block _ _ _ _ _ _ _ _) as [[e | json] c]; reflexivity.
Qed.

(** The handler when the [try] block raises and the rollback rejects. *)
Lemma checkout_handler_unanswered (msg : string) (d : db) (body it : jsval)
      (rest : list jsval) (e : exn) (c : conn) :
  items_of body = JArr (it :: rest) ->
  attempt faults now d body (it :: rest) = (inl e, c) ->
  checkout_handler faults now (Some msg) d body
  = {| answer := None; thrown := Some (Error msg); kept := committed c;
       history := (trace c ++ [EvRollback]) ++ [EvRelease] |}.
Proof.
  intros Hit Ha. unfold checkout_handler. cbv zeta.
  unfold items_of in Hit. rewrite Hit.
  fold (email_of body) (phone_of body) (coupon_of body) (session_of body).
  unfold attempt in Ha. rewrite Ha. reflexivity.
Qed.

(** C1. For every checkout request that passes validation, if the [try]
    block (the steps 1 to 5, and the calls that open and commit the
    transaction around them) raises an exception [e], nothing of the
    transaction is committed: the store is what it was before the call, so
    no order row, no order item row and no new user row persist; and the
    last thing done on the connection before its release is the call of
    the rollback.  The answer HTTP 500 with [{ok:false, error: e.message}]
    is sent when that rollback succeeds.  When the rollback itself rejects
    (as it does on a connection that was lost), the [catch] block is left
    before it answers: no response is sent and the handler ends with the
    error of the rollback. *)
Theorem checkout_failure_rolls_back (rb : option string) (d : db)
        (body it : jsval) (rest : list jsval) (e : exn) :
  items_of body = JArr (it :: rest) ->
  fst (attempt faults now d body (it :: rest)) = inl e ->
  kept (checkout_handler faults now rb d body) = d
  /\ users (kept (checkout_handler faults now rb d body)) = users d
  /\ orders (kept (checkout_handler faults now rb d body)) = orders d
  /\ order_items (kept (checkout_handler faults now rb d body))
     = order_items d
  /\ (exists evs,
        Forall in_transaction evs
        /\ history (checkout_handler faults now rb d body)
           = EvAcquire :: evs ++ [EvRollback; EvRelease])
  /\ (rb = None ->
      answer (checkout_handler faults now rb d body)
      = Some (500%nat,
              JObj [("ok", JBool false); ("error", JStr (message e))])
      /\ thrown (checkout_handler faults now rb d body) = None)
  /\ (forall msg,
        rb = Some msg ->
        answer (checkout_handler faults now rb d body) = None
        /\ thrown (checkout_handler faults now rb d body)
           = Some (Error msg)).
Proof.
  intros Hit He.
  assert (Hk : kept (checkout_handler faults now rb d body) = d
               /\ exists evs,
                    Forall in_transaction evs
                    /\ history (checkout_handler faults now rb d body)
                       = EvAcquire :: evs ++ [EvRollback; EvRelease]).
  { destruct rb as [msg |].
    - destruct (attempt faults now d body (it :: rest)) as [r c] eqn:E.
      simpl in He. subst r.
      rewrite (checkout_handler_unanswered msg d body Hit E). simpl.
      unfold attempt in E. apply try_block_run in E; [| reflexivity].
      destruct E as (evs & Htr & Hev & Hc). simpl in Htr, Hc.
      split; [exact Hc |]. exists evs. split; [exact Hev |].
      rewrite Htr. simpl. rewrite <- app_assoc. reflexivity.
    - rewrite checkout_handler_settled.
      destruct (checkout_ends d body Hit)
        as (evs & Hev & [(e' & _ & Hc) | (json & d' & Hj & _)]).
      + rewrite Hc. simpl. split; [reflexivity |].
        exists evs. split; [exact Hev | reflexivity].
      + rewrite He in Hj. discriminate. }
  destruct Hk as (Hk & Hh). rewrite Hk.
  repeat split; try reflexivity; try exact Hh.
  - subst rb. rewrite checkout_handler_settled.
    destruct (checkout_ends d body Hit)
      as (evs & _ & [(e' & He' & Hc) | (json & d' & Hj & _)]).
    + rewrite He in He'. injection He' as <-. rewrite Hc. reflexivity.
    + rewrite He in Hj. discriminate.
  - subst rb. rewrite checkout_handler_settled. reflexivity.
  - subst rb.
    destruct (attempt faults now d body (it :: rest)) as [r c] eqn:E.
    simpl in He. subst r.
    rewrite (checkout_handler_unanswered msg d body Hit E). reflexivity.
  - subst rb.
    destruct (attempt faults now d body (it :: rest)) as [r c] eqn:E.
    simpl in He. subst r.
    rewrite (checkout_handler_unanswered msg d body Hit E). reflexivity.
Qed.

(** C8. For every checkout request in which [items] is missing, not a list,
    or empty, the handler answers HTTP 400 with exactly
    [{ok:false, error:"Cart is empty"}] and does nothing on the store: no
    connection is acquired, nothing is read, nothing is written. *)
Theorem checkout_empty_cart (d : db) (body : jsval) :
  posted_items body = JUndefined
  \/ (forall l, posted_items body <> JArr l)
  \/ posted_items body = JArr [] ->
  checkout faults now d body =
  {| response :=
       (400%nat, JObj [("ok", JBool false); ("error", JStr "Cart is empty")]);
     store := d;
     events := [] |}.
Proof.
  intros H. apply checkout_rejected. intros it rest Hit.
  assert (K : forall x y, posted_items body <> JArr (x :: y)).
  { intros x y E. destruct H as [H | [H | H]].
    - rewrite H in E. discriminate.
    - exact (H _ E).
    - rewrite H in E. discriminate. }
  unfold items_of, field, js_or in Hit.
  destruct body as [| | b | [q |] | s | l | props]; simpl in Hit, K;
    try discriminate.
  - destruct b; discriminate.
  - destruct (negb (Qeq_bool q 0)); discriminate.
  - destruct (negb (s =? "")%string); discriminate.
  - destruct (assoc "items" props) as [| | b | n | s | l | ps] eqn:E;
      try discriminate.
    injection Hit as ->. exact (K _ _ eq_refl).
Qed.


(** C10. Every checkout only inserts rows and never updates or deletes one:
    every statement it sends is a SELECT or an INSERT; afterwards the
    products, product variants and coupons are what they were, and the
    users, orders and order items are the rows of before, unchanged and in
    place (an existing user keeps its phone and every other field),
    followed by the rows the checkout added. *)
Theorem checkout_inserts_only (d : db) (body : jsval) :
  Forall reads_or_inserts (events (checkout faults now d body))
  /\ products (store (checkout faults now d body)) = products d
  /\ product_variants (store (checkout faults now d body))
     = product_variants d
  /\ coupons (store (checkout faults now d body)) = coupons d
  /\ (exists l, users (store (checkout faults now d body)) = users d ++ l)
  /\ (exists l, orders (store (checkout faults now d body)) = orders d ++ l)
  /\ (exists l, order_items (store (checkout faults now d body))
                = order_items d ++ l).
Proof.
  assert (Hd : forall it rest,
             items_of body = JArr (it :: rest) ->
             Forall reads_or_inserts (events (checkout faults now d body))
             /\ extends d (store (checkout faults now d body))).
  { intros it rest E.
    destruct (checkout_ends d body E) as (evs & Hev & [(e & _ & Hc) | H]).
    - rewrite Hc. simpl. split; [| apply extends_refl].
      constructor; [exact I |]. apply Forall_app. split.
      + apply reads_or_inserts_in_transaction, Hev.
      + repeat constructor.
    - destruct H as (json & d' & _ & Hext & Hc). rewrite Hc. simpl.
      split; [| exact Hext].
      constructor; [exact I |]. apply Forall_app. split.
      + apply reads_or_inserts_in_transaction, Hev.
      + repeat constructor. }
  assert (Hr : (forall it rest, items_of body <> JArr (it :: rest)) ->
             Forall reads_or_inserts (events (checkout faults now d body))
             /\ extends d (store (checkout faults now d body))).
  { intros H. rewrite (checkout_rejected d body H). simpl.
    split; [constructor | apply extends_refl]. }
  assert (H : Forall reads_or_inserts (events (checkout faults now d body))
              /\ extends d (store (checkout faults now d body))).
  { destruct (items_of body) as [| | b | n | s | l | props] eqn:E;
      try (apply Hr; intros it rest; discriminate).
    destruct l as [| it rest]; [apply Hr; intros it rest; discriminate |].
    eapply Hd. reflexivity. }
  destruct H as (H1 & Hu & Hp & Hv & Hc & Ho & Hi).
  repeat split; assumption.
Qed.
End Handler.

(** ** Arithmetic of the amounts *)

Lemma Qle_bool_false (x y : Q) : Qle_bool x y = false -> y < x.
Proof.
  intros H. apply Qnot_le_lt. intros K.
  apply Qle_bool_iff in K. congruence.
Qed.

Lemma math_max_lower (a : number) (t : Q) :
  math_max (Fin 0) a = Fin t -> 0 <= t.
Proof.
  destruct a as [y |]; simpl; [| discriminate].
  intros H. injection H as <-.
  destruct (Qle_bool 0 y) eqn:E.
  - apply Qle_bool_iff. exact E.
  - apply Qle_refl.
Qed.

Lemma coerce_qty_lower {P : Platform} (q : jsval) (x : Q) :
  coerce_qty q = Fin x -> 1 <= x.
Proof.
  unfold coerce_qty. destruct (to_number (js_or q (JNum (Fin 1)))) as [y |];
    simpl; [| discriminate].
  intros H. injection H as <-.
  destruct (Qle_bool 1 y) eqn:E.
  - apply Qle_bool_iff. exact E.
  - apply Qle_refl.
Qed.

Lemma math_min_upper (a : number) (s x : Q) :
  math_min a (Fin s) = Fin x -> x <= s.
Proof.
  destruct a as [y |]; simpl; [| discriminate].
  intros H. injection H as <-.
  destruct (Qle_bool y s) eqn:E.
  - apply Qle_bool_iff. exact E.
  - apply Qle_refl.
Qed.

Lemma math_min_lower (y s x : Q) :
  0 <= y -> 0 <= s -> math_min (Fin y) (Fin s) = Fin x -> 0 <= x.
Proof.
  simpl. intros Hy Hs H. injection H as <-.
  destruct (Qle_bool y s); assumption.
Qed.

Lemma Qfloor_nonneg (x : Q) : 0 <= x -> 0 <= inject_Z (Qfloor x).
Proof.
  intros H. change 0 with (inject_Z 0). rewrite <- Zle_Qle.
  change 0%Z with (Qfloor 0). apply Qfloor_resp_le. exact H.
Qed.

Lemma Fin_inj (a b : Q) : Fin a = Fin b -> a = b.
Proof. intros H. injection H as H. exact H. Qed.

Lemma coupon_amount_percent_eq (c : coupon_view) (s : Q) :
  c_discount_type c = "percent" ->
  coupon_amount c (Fin s)
  = Fin (inject_Z (Qfloor (s * (c_value c / 100) * 100 + (1 # 2))) / 100).
Proof. intros H. unfold coupon_amount. rewrite H. reflexivity. Qed.

Lemma coupon_amount_fixed (c : coupon_view) (s : number) :
  c_discount_type c <> "percent" ->
  coupon_amount c s = Fin (c_value c).
Proof.
  intros H. unfold coupon_amount.
  destruct (String.eqb_spec (c_discount_type c) "percent"); [contradiction |].
  reflexivity.
Qed.

Lemma coupon_amount_nonneg (c : coupon_view) (s a : Q) :
  0 <= s -> 0 <= c_value c -> coupon_amount c (Fin s) = Fin a -> 0 <= a.
Proof.
  intros Hs Hv.
  destruct (String.eqb_spec (c_discount_type c) "percent") as [E | E].
  - rewrite (coupon_amount_percent_eq c s E). intros H.
    apply Fin_inj in H. subst a.
    apply Qle_shift_div_l; [reflexivity |]. rewrite Qmult_0_l.
    apply Qfloor_nonneg.
    assert (0 <= s * (c_value c / 100)).
    { apply Qmult_le_0_compat; [exact Hs |].
      apply Qle_shift_div_l; [reflexivity |]. rewrite Qmult_0_l. exact Hv. }
    lra.
  - rewrite (coupon_amount_fixed c (Fin s) E). intros H.
    apply Fin_inj in H. subst a. exact Hv.
Qed.

Lemma fresh_id_fresh (ids : list Z) : ~ In (fresh_id ids) ids.
Proof.
  assert (H : forall x, In x ids -> (x <= fold_right Z.max 0 ids)%Z).
  { induction ids as [| y rest IH]; simpl; [contradiction |].
    intros x [-> | Hx]; [lia |]. specialize (IH x Hx). lia. }
  intros K. apply H in K. unfold fresh_id in K. lia.
Qed.

(** ** The first row a lookup finds *)

Lemma filter_all_false {A} (g : A -> bool) (l : list A) :
  Forall (fun x => g x = false) l -> filter g l = [].
Proof.
  induction 1 as [| x rest Hx _ IH]; simpl; [reflexivity |].
  rewrite Hx. exact IH.
Qed.

Lemma filter_first_true {A} (g : A -> bool) (pre post : list A) (a : A) :
  Forall (fun x => g x = false) pre ->
  g a = true ->
  filter g (pre ++ a :: post) = a :: filter g post.
Proof.
  intros Hpre Ha. rewrite filter_app, (@filter_all_false A g pre Hpre). simpl.
  rewrite Ha. reflexivity.
Qed.


Lemma filter_In_cons {A} (g : A -> bool) (l : list A) (a : A) :
  In a l -> g a = true -> exists b rest, filter g l = b :: rest.
Proof.
  intros Hin Ha.
  assert (K : In a (filter g l)) by (apply filter_In; auto).
  destruct (filter g l) as [| b rest]; [contradiction |].
  exists b, rest. reflexivity.
Qed.

(** ** The two fates of a checkout *)

Section Fates.
Context {P : Platform}.
Variable faults : nat -> option string.
Variable now : Z.

Lemma checkout_status (d : db) (body : jsval) :
  fst (response (checkout faults now d body)) = 200%nat ->
  exists it rest json c,
    items_of body = JArr (it :: rest)
    /\ attempt faults now d body (it :: rest) = (inr json, c)
    /\ checkout faults now d body
       = {| response := (200%nat, json); store := committed c;
            events := trace c ++ [EvRelease] |}.
Proof.
  intros H.
  destruct (items_of body) as [| | b | n | s | l | props] eqn:E.
  1-5, 7: rewrite checkout_rejected in H
    by (intros it rest; rewrite E; discriminate); discriminate.
  destruct l as [| it rest].
  { rewrite checkout_rejected in H
      by (intros it rest; rewrite E; discriminate). discriminate. }
  rewrite (checkout_accepted faults now d body E) in H |- *.
  destruct (attempt faults now d body (it :: rest)) as [[e | json] c] eqn:A.
  - discriminate.
  - exists it, rest, json, c. auto.
Qed.

(** What a checkout that answers 200 has answered and committed. *)
Lemma checkout_success (d : db) (body : jsval) :
  fst (response (checkout faults now d body)) = 200%nat ->
  exists items resolved t rows,
    items_of body = JArr items
    /\ items <> []
    /\ resolved_lines d items = Some resolved
    /\ math_max (Fin 0)
         (nsub (accumulate resolved (Fin 0))
            (discount_for now d (coupon_of body)
               (accumulate resolved (Fin 0))))
       = Fin t
    /\ response (checkout faults now d body)
       = (200%nat,
          success_body
            (order_id (new_order d
                         (resolved_user d (email_of body) (phone_of body))
                         (session_of body) t))
            (accumulate resolved (Fin 0))
            (discount_for now d (coupon_of body)
               (accumulate resolved (Fin 0)))
            (Fin t))
    /\ Forall2
         (stores_line
            (order_id (new_order d
                         (resolved_user d (email_of body) (phone_of body))
                         (session_of body) t)))
         resolved rows
    /\ store (checkout faults now d body)
       = {| users := users_after d (email_of body) (phone_of body);
            products := products d;
            product_variants := product_variants d;
            coupons := coupons d;
            orders :=
              orders d
              ++ [new_order d
                    (resolved_user d (email_of body) (phone_of body))
                    (session_of body) t];
            order_items := order_items d ++ rows |}.
Proof.
  intros H. apply checkout_status in H.
  destruct H as (it & rest & json & c & Hit & Ha & Hc).
  unfold attempt in Ha. apply try_block_ok in Ha.
  destruct Ha as (resolved & t & rows & H1 & H2 & H3 & H4 & H5).
  exists (it :: rest), resolved, t, rows. rewrite Hc. simpl.
  repeat split; try assumption; try discriminate.
  rewrite H3. reflexivity.
Qed.

(** A checkout that does not answer 200 leaves the store as it was. *)
Lemma checkout_no_success (d : db) (body : jsval) :
  fst (response (checkout faults now d body)) <> 200%nat ->
  store (checkout faults now d body) = d.
Proof.
  intros H.
  destruct (items_of body) as [| | b | n | s | l | props] eqn:E.
  1-5, 7: rewrite checkout_rejected
    by (intros it rest; rewrite E; discriminate); reflexivity.
  destruct l as [| it rest].
  { rewrite checkout_rejected
      by (intros it rest; rewrite E; discriminate). reflexivity. }
  destruct (checkout_ends faults now d body E)
    as (evs & Hev & [(e & _ & Hc) | K]).
  - rewrite Hc. reflexivity.
  - destruct K as (json & d' & _ & _ & Hc). rewrite Hc in H.
    exfalso. apply H. reflexivity.
Qed.

Lemma resolved_lines_length (d : db) (items : list jsval) :
  forall ls, resolved_lines d items = Some ls ->
             List.length ls = List.length items.
Proof.
  induction items as [| it rest IH]; intros ls H; simpl in H.
  - injection H as <-. reflexivity.
  - destruct (line_for d it); [| discriminate].
    destruct (resolved_lines d rest) as [ls' |]; [| discriminate].
    injection H as <-. simpl. rewrite (IH ls' eq_refl). reflexivity.
Qed.

(** C5. For every successful checkout the response is
    [{ok:true, orderId, subtotal, discount, total}] with
    [total = max(0, subtotal - discount)] and [total >= 0]; exactly one
    order row is inserted, with the resolved user id, the session id, that
    total, the status "created", no payment reference and a generated id
    that no earlier order has; and exactly one order item row is inserted
    per resolved line item, in order, each holding the generated order id
    and the variant, quantity and unit price of its line. *)
Theorem checkout_persists_order (d : db) (body : jsval) :
  fst (response (checkout faults now d body)) = 200%nat ->
  exists items resolved orderId subtotal discount t rows,
    items_of body = JArr items
    /\ resolved_lines d items = Some resolved
    /\ response (checkout faults now d body)
       = (200%nat,
          JObj [("ok", JBool true); ("orderId", JNum (num_of_Z orderId));
                ("subtotal", JNum subtotal); ("discount", JNum discount);
                ("total", JNum (Fin t))])
    /\ Fin t = math_max (Fin 0) (nsub subtotal discount)
    /\ 0 <= t
    /\ orders (store (checkout faults now d body))
       = orders d
         ++ [{| order_id := orderId;
                order_user :=
                  resolved_user d (email_of body) (phone_of body);
                session_id := session_of body;
                total_amount := t;
                status := "created";
                payment_reference := None |}]
    /\ ~ In orderId (map order_id (orders d))
    /\ order_items (store (checkout faults now d body))
       = order_items d ++ rows
    /\ Forall2 (stores_line orderId) resolved rows
    /\ List.length rows = List.length items.
Proof.
  intros H. apply checkout_success in H.
  destruct H as (items & resolved & t & rows & H1 & _ & H2 & H3 & H4 & H5 & H6).
  exists items, resolved,
    (order_id (new_order d (resolved_user d (email_of body) (phone_of body))
                 (session_of body) t)),
    (accumulate resolved (Fin 0)),
    (discount_for now d (coupon_of body) (accumulate resolved (Fin 0))),
    t, rows.
  rewrite H6, H4. simpl.
  repeat split; try assumption.
  - symmetry. exact H3.
  - eapply math_max_lower. exact H3.
  - apply fresh_id_fresh.
  - rewrite <- (Forall2_length H5). apply resolved_lines_length with d.
    exact H2.
Qed.

(** C6. For every checkout: if [email] is non-empty and the [users] table
    holds a row with that email (a row the store's comparison finds equal
    to it), no user row is inserted, and the order of a successful checkout
    carries the id of the first such row of the table; if [email] is
    non-empty and the table holds no such row, a successful checkout has
    inserted exactly one user row, with empty first and last name, the
    given email and phone, an empty password hash and a generated id that
    no earlier user has, and the order carries that id; if [email] is
    empty, no user row is created and the order carries a null user id. *)
Theorem checkout_resolves_user (d : db) (body : jsval) :
  (truthy (email_of body) = false ->
     users (store (checkout faults now d body)) = users d)
  /\ (forall u,
        truthy (email_of body) = true ->
        In u (users d) ->
        sql_eq (user_email u) (email_of body) = true ->
        users (store (checkout faults now d body)) = users d)
  /\ (fst (response (checkout faults now d body)) = 200%nat ->
      exists order,
        orders (store (checkout faults now d body)) = orders d ++ [order]
        /\ (truthy (email_of body) = false -> order_user order = None)
        /\ (forall pre u post,
              truthy (email_of body) = true ->
              users d = pre ++ u :: post ->
              Forall
                (fun x => sql_eq (user_email x) (email_of body) = false)
                pre ->
              sql_eq (user_email u) (email_of body) = true ->
              order_user order = Some (user_id u))
        /\ (truthy (email_of body) = true ->
            Forall (fun x => sql_eq (user_email x) (email_of body) = false)
              (users d) ->
            exists id,
              ~ In id (map user_id (users d))
              /\ users (store (checkout faults now d body))
                 = users d
                   ++ [{| user_id := id; first_name := "";
                          last_name := ""; user_email := email_of body;
                          user_phone := phone_of body;
                          password_hash := "" |}]
              /\ order_user order = Some id)).
Proof.
  assert (Hsame :
    users_after d (email_of body) (phone_of body) = users d ->
    users (store (checkout faults now d body)) = users d).
  { intros Hu.
    destruct (Nat.eq_dec (fst (response (checkout faults now d body))) 200)
      as [E | E].
    - apply checkout_success in E.
      destruct E as (items & resolved & t & rows & _ & _ & _ & _ & _ & _ & E).
      rewrite E. exact Hu.
    - rewrite (checkout_no_success d body E). reflexivity. }
  split; [| split].
  - intros Ht. apply Hsame. unfold users_after. rewrite Ht. reflexivity.
  - intros u Ht Hin Hu. apply Hsame. unfold users_after, users_by_email.
    rewrite Ht.
    destruct (@filter_In_cons _
                (fun x => sql_eq (user_email x) (email_of body))
                (users d) u Hin Hu) as (b & l & ->).
    reflexivity.
  - intros H. apply checkout_success in H.
    destruct H as (items & resolved & t & rows & _ & _ & _ & _ & _ & _ & E).
    rewrite E. simpl. eexists. split; [reflexivity |]. simpl.
    unfold resolved_user, users_after, users_by_email. split; [| split].
    + intros Ht. rewrite Ht. reflexivity.
    + intros pre u post Ht Hd Hpre Hu. rewrite Ht, Hd.
      rewrite (@filter_first_true _
                 (fun x => sql_eq (user_email x) (email_of body))
                 pre post u Hpre Hu).
      reflexivity.
    + intros Ht Hnone. rewrite Ht.
      rewrite (@filter_all_false _ _ _ Hnone).
      exists (fresh_id (map user_id (users d))).
      split; [apply fresh_id_fresh |]. split; reflexivity.
Qed.
End Fates.

(** ** The subtotal *)

Section Subtotal.
Context {P : Platform}.
Variable faults : nat -> option string.
Variable now : Z.


Lemma resolved_lines_resolve (d : db) (items : list jsval) :
  forall ls, resolved_lines d items = Some ls ->
             Forall (fun it => exists row, variant_for d it = Some row) items.
Proof.
  induction items as [| it rest IH]; intros ls H; simpl in H.
  - constructor.
  - destruct (line_for d it) as [l |] eqn:El; [| discriminate].
    destruct (resolved_lines d rest) as [ls' |]; [| discriminate].
    constructor; [| apply (IH ls' eq_refl)].
    unfold line_for in El.
    destruct (variant_for d it) as [row |]; [| discriminate].
    exists row. reflexivity.
Qed.

(** The quantities of a finite subtotal are numbers, and at least 1. *)
Lemma resolved_lines_qty (d : db) (items : list jsval) :
  forall ls, resolved_lines d items = Some ls ->
             Forall finite_line ls ->
             Forall (fun it => exists x, qty_of it = Fin x /\ 1 <= x) items.
Proof.
  induction items as [| it rest IH]; intros ls H Hfin; simpl in H.
  - constructor.
  - destruct (line_for d it) as [l |] eqn:El; [| discriminate].
    destruct (resolved_lines d rest) as [ls' |]; [| discriminate].
    injection H as <-. inversion Hfin as [| ? ? (q & u & Hq & Hu) Hrest]; subst.
    constructor; [| apply (IH ls' eq_refl Hrest)].
    apply line_for_inv in El. destruct El as (row & q0 & _ & Hq0 & ->).
    simpl in Hq. exists q. unfold qty_of. rewrite Hq0.
    split; [exact Hq |]. eapply coerce_qty_lower. exact Hq.
Qed.



End Subtotal.

(** ** The discount *)

Lemma accumulate_nonneg (ls : list line) :
  Forall line_priced ls ->
  forall s0 s, 0 <= s0 -> accumulate ls (Fin s0) = Fin s -> 0 <= s.
Proof.
  induction 1 as [| l rest (Hq & u & Hu & Hu0) _ IH]; intros s0 s Hs0 H;
    simpl in H.
  - apply Fin_inj in H. subst s. exact Hs0.
  - rewrite Hu in H. destruct (r_qty l) as [q |] eqn:Eq.
    + simpl in H. apply IH in H; [exact H |].
      specialize (Hq q eq_refl).
      assert (0 <= q * u) by (apply Qmult_le_0_compat; lra). lra.
    + simpl in H. apply accumulate_finite in H.
      destruct H as ([x H] & _). discriminate.
Qed.

Section Discount.
Context {P : Platform}.
Variable faults : nat -> option string.
Variable now : Z.

Lemma hd_error_In {A} (l : list A) (a : A) : hd_error l = Some a -> In a l.
Proof. destruct l; simpl; intros H; [discriminate |]. injection H as ->. auto. Qed.

Lemma firstn_In {A} (n : nat) (l : list A) (a : A) :
  In a (firstn n l) -> In a l.
Proof.
  intros H. rewrite <- (firstn_skipn n l). apply in_or_app. left. exact H.
Qed.

Lemma variants_by_sku_In (d : db) (s : jsval) (g : Q) (row : variant_row) :
  In row (variants_by_sku d s g) ->
  In row (product_variants d)
  /\ grams row == g
  /\ exists p, In p (products d)
               /\ product_id p = variant_product row
               /\ sql_eq (JStr (sku p)) s = true.
Proof.
  unfold variants_by_sku. intros H.
  apply firstn_In in H. apply in_flat_map in H.
  destruct H as (v & Hv & H). apply in_map_iff in H.
  destruct H as (p & -> & H). apply filter_In in H.
  destruct H as (Hp & H).
  apply andb_prop in H. destruct H as (H & Hg).
  apply andb_prop in H. destruct H as (Hid & Hs).
  split; [exact Hv |]. split; [apply Qeq_bool_iff; exact Hg |].
  exists p. split; [exact Hp |]. split; [| exact Hs].
  apply Z.eqb_eq. exact Hid.
Qed.

Lemma variants_by_id_In (d : db) (i : jsval) (row : variant_row) :
  In row (variants_by_id d i) ->
  In row (product_variants d)
  /\ sql_eq (JNum (num_of_Z (variant_id row))) i = true.
Proof. unfold variants_by_id. intros H. apply filter_In in H. exact H. Qed.

Lemma variant_for_In (d : db) (it : jsval) (row : variant_row) :
  variant_for d it = Some row -> In row (product_variants d).
Proof.
  unfold variant_for. intros H.
  destruct (get_prop it "variantId") as [e | vid]; [discriminate |].
  destruct (truthy vid).
  - apply hd_error_In, variants_by_id_In in H. apply H.
  - destruct (get_prop it "productSku") as [e | psku]; [discriminate |].
    destruct (get_prop it "grams") as [e | g]; [discriminate |].
    destruct (bind_value psku) as [e | s]; [discriminate |].
    destruct (to_number g) as [gq |]; [| discriminate].
    apply hd_error_In, variants_by_sku_In in H. apply H.
Qed.

Lemma resolved_lines_priced (d : db) (items : list jsval) :
  Forall (fun v => 0 <= price v) (product_variants d) ->
  forall ls, resolved_lines d items = Some ls -> Forall line_priced ls.
Proof.
  intros Hd. induction items as [| it rest IH]; intros ls H; simpl in H.
  - injection H as <-. constructor.
  - destruct (line_for d it) as [l |] eqn:El; [| discriminate].
    destruct (resolved_lines d rest) as [ls' |]; [| discriminate].
    injection H as <-. constructor; [| apply (IH ls' eq_refl)].
    apply line_for_inv in El. destruct El as (row & q & Hrow & _ & ->).
    split; simpl.
    + intros x Hx. eapply coerce_qty_lower. exact Hx.
    + exists (price row). split; [reflexivity |].
      apply variant_for_In in Hrow.
      rewrite Forall_forall in Hd. apply Hd. exact Hrow.
Qed.

Lemma coupons_by_code_value (d : db) (k : jsval) (c0 : coupon_view) :
  Forall (fun c => 0 <= value c) (coupons d) ->
  In c0 (coupons_by_code now d k) -> 0 <= c_value c0.
Proof.
  intros Hd H. unfold coupons_by_code in H. apply in_map_iff in H.
  destruct H as (c & <- & H). apply filter_In in H. destruct H as (H & _).
  rewrite Forall_forall in Hd. simpl. apply Hd. exact H.
Qed.

Lemma discount_for_bounds (d : db) (k : jsval) (s dd : Q) :
  Forall (fun c => 0 <= value c) (coupons d) ->
  0 <= s ->
  discount_for now d k (Fin s) = Fin dd ->
  0 <= dd /\ dd <= s.
Proof.
  intros Hd Hs. unfold discount_for.
  assert (Z0 : Fin 0 = Fin dd -> 0 <= dd /\ dd <= s).
  { intros H. apply Fin_inj in H. subst dd. split; [apply Qle_refl | exact Hs]. }
  destruct (truthy k); [| exact Z0].
  destruct (coupons_by_code now d k) as [| c0 l] eqn:E; [exact Z0 |].
  destruct (_ && _); [| exact Z0].
  intros H. split; [| eapply math_min_upper; exact H].
  destruct (coupon_amount c0 (Fin s)) as [a |] eqn:Ea; [| discriminate].
  eapply math_min_lower; [| exact Hs | exact H].
  eapply coupon_amount_nonneg; [exact Hs | | exact Ea].
  eapply coupons_by_code_value; [exact Hd |]. rewrite E. left. reflexivity.
Qed.

(** C4 (amended). For every successful checkout on a store whose variant
    prices and coupon values are not negative, whatever the coupon row's
    stored type, minimum subtotal or expiry, the computed discount
    satisfies [0 <= discount <= subtotal]. *)
Theorem discount_within_subtotal (d : db) (body : jsval) :
  Forall (fun v => 0 <= price v) (product_variants d) ->
  Forall (fun c => 0 <= value c) (coupons d) ->
  fst (response (checkout faults now d body)) = 200%nat ->
  exists orderId subtotal discount total,
    response (checkout faults now d body)
    = (200%nat,
       success_body orderId (Fin subtotal) (Fin discount) (Fin total))
    /\ 0 <= discount
    /\ discount <= subtotal.
Proof.
  intros Hv Hc H. apply checkout_success in H.
  destruct H as (items & ls & t & rows & _ & _ & H3 & H4 & H5 & _ & _).
  destruct (accumulate ls (Fin 0)) as [s |] eqn:Hs; [| discriminate].
  destruct (discount_for now d (coupon_of body) (Fin s)) as [dd |] eqn:Hd;
    [| discriminate].
  do 4 eexists. split; [exact H5 |].
  eapply discount_for_bounds; [exact Hc | | exact Hd].
  eapply accumulate_nonneg; [| apply Qle_refl | exact Hs].
  eapply resolved_lines_priced; [exact Hv | exact H3].
Qed.

Lemma discount_for_applies (d : db) (k : jsval) (s : number) :
  truthy k = true ->
  coupon_applies (coupons_by_code now d k) s = true ->
  exists c0 l,
    coupons_by_code now d k = c0 :: l
    /\ discount_for now d k s = math_min (coupon_amount c0 s) s.
Proof.
  intros Hk. unfold discount_for, coupon_applies. rewrite Hk.
  destruct (coupons_by_code now d k) as [| c0 l]; [discriminate |].
  intros ->. exists c0, l. split; reflexivity.
Qed.








End Discount.

(** ** The variant of a line item *)

Section Dispatch.
Context {P : Platform}.
Variable faults : nat -> option string.
Variable now : Z.

Lemma resolve_variant_by_id (it : jsval) (c : conn) (vid : jsval) :
  faults (ncalls c) = None ->
  get_prop it "variantId" = inr vid ->
  truthy vid = true ->
  resolve_variant faults it c
  = (found_or_throw (variants_by_id (tx c) vid),
     logged c (EvQuery (SelectVariantById vid)) (tx c)).
Proof.
  intros Hf Hv Ht. unfold resolve_variant. rewrite Hv.
  unfold bind at 1. cbn [lift ret]. rewrite Ht.
  unfold bind, select_variant_by_id, store_call.
  rewrite Hf, (bind_value_truthy vid Ht).
  destruct (variants_by_id (tx c) vid); reflexivity.
Qed.

Lemma resolve_variant_by_sku (it : jsval) (c : conn) (vid psku g : jsval)
      (gq : Q) :
  faults (ncalls c) = None ->
  get_prop it "variantId" = inr vid ->
  truthy vid = false ->
  get_prop it "productSku" = inr psku ->
  get_prop it "grams" = inr g ->
  bind_value psku = inr psku ->
  to_number g = Fin gq ->
  resolve_variant faults it c
  = (found_or_throw (variants_by_sku (tx c) psku gq),
     logged c (EvQuery (SelectVariantBySku psku (Fin gq))) (tx c)).
Proof.
  intros Hf Hv Ht Hp Hg Hb Hn. unfold resolve_variant, bind. rewrite Hv.
  cbn [lift ret]. rewrite Ht, Hp. cbn [lift ret]. rewrite Hg.
  cbn [lift ret]. rewrite Hn.
  unfold select_variant_by_sku, store_call.
  rewrite Hf, Hb. cbn [bind_decimal].
  destruct (variants_by_sku (tx c) psku gq); reflexivity.
Qed.

Lemma variants_by_sku_one (d : db) (s : jsval) (g : Q) :
  (List.length (variants_by_sku d s g) <= 1)%nat.
Proof. unfold variants_by_sku. apply firstn_le_length. Qed.

Lemma resolved_lines_all (d : db) (items : list jsval) (it : jsval) :
  forall ls, resolved_lines d items = Some ls ->
             In it items -> variant_for d it <> None.
Proof.
  intros ls H Hin. apply resolved_lines_resolve in H.
  rewrite Forall_forall in H. destruct (H it Hin) as (row & ->).
  discriminate.
Qed.

Lemma checkout_unresolved (d : db) (body : jsval) (items : list jsval)
      (it : jsval) :
  items_of body = JArr items ->
  In it items ->
  variant_for d it = None ->
  fst (response (checkout faults now d body)) = 500%nat
  /\ store (checkout faults now d body) = d.
Proof.
  intros Hit Hin Hnone.
  assert (Hns : fst (response (checkout faults now d body)) <> 200%nat).
  { intros H. apply checkout_success in H.
    destruct H as (items' & ls & t & rows & H1 & _ & H3 & _).
    rewrite Hit in H1. injection H1 as <-.
    exact (resolved_lines_all d items it H3 Hin Hnone). }
  split; [| apply checkout_no_success; exact Hns].
  destruct items as [| x rest]; [contradiction |].
  destruct (checkout_ends faults now d body Hit)
    as (evs & _ & [(e & _ & Hc) | (json & d' & _ & _ & Hc)]).
  - rewrite Hc. reflexivity.
  - exfalso. apply Hns. rewrite Hc. reflexivity.
Qed.

Lemma try_block_variant_not_found (email phone couponCode sessionId : jsval)
      (pre : list jsval) (it : jsval) (post : list jsval) (d : db)
      (ls : list line) :
  (forall n, faults n = None) ->
  bind_value phone = inr phone ->
  resolved_lines d pre = Some ls ->
  no_row_found d it = true ->
  exists c,
    try_block faults now email phone couponCode sessionId
      (pre ++ it :: post) (acquired d)
    = (inl (Error "Variant not found"), c).
Proof.
  intros Hnf Hp Hls Hnone. unfold try_block.
  unfold bind at 1. unfold begin_transaction. rewrite Hnf.
  set (c1 := logged (acquired d) EvBegin (committed (acquired d))).
  destruct (@find_or_create_user_total P faults Hnf email phone c1 Hp)
    as (c2 & Hu & Hd2).
  unfold bind at 1. rewrite Hu.
  assert (Hls2 : resolved_lines (tx c2) pre = Some ls).
  { rewrite Hd2. rewrite resolved_lines_users. exact Hls. }
  assert (Hn2 : no_row_found (tx c2) it = true).
  { rewrite Hd2. exact Hnone. }
  destruct (@resolve_items_none P faults Hnf pre it post [] ls (Fin 0) c2
              Hls2 Hn2) as (c3 & Hr).
  unfold bind at 1. rewrite Hr. exists c3. reflexivity.
Qed.

(** C7 (amended). For every requested line item: if [variantId] is present
    and truthy (not 0, not empty) the variant is looked up by that id
    directly; otherwise (absent, or falsy such as 0) it is looked up by
    joining on the product SKU with [grams] matched exactly, at most one
    match being selected; in either case the first row found is the
    variant, and finding no row raises "Variant not found".  If an item
    does not resolve, the checkout answers 500 and the store is what it was
    before the call, with no partial order; and when the store raises
    nothing and the lookup of an item finds no row after the items before
    it resolved, the error answered is "Variant not found". *)
Theorem variant_lookup :
  (forall it c vid,
     faults (ncalls c) = None ->
     get_prop it "variantId" = inr vid ->
     truthy vid = true ->
     resolve_variant faults it c
     = (found_or_throw (variants_by_id (tx c) vid),
        logged c (EvQuery (SelectVariantById vid)) (tx c)))
  /\ (forall it c vid psku g gq,
        faults (ncalls c) = None ->
        get_prop it "variantId" = inr vid ->
        truthy vid = false ->
        get_prop it "productSku" = inr psku ->
        get_prop it "grams" = inr g ->
        bind_value psku = inr psku ->
        to_number g = Fin gq ->
        resolve_variant faults it c
        = (found_or_throw (variants_by_sku (tx c) psku gq),
           logged c (EvQuery (SelectVariantBySku psku (Fin gq))) (tx c)))
  /\ (forall d psku gq,
        (List.length (variants_by_sku d psku gq) <= 1)%nat
        /\ forall row,
             In row (variants_by_sku d psku gq) ->
             In row (product_variants d)
             /\ grams row == gq
             /\ exists p, In p (products d)
                          /\ product_id p = variant_product row
                          /\ sql_eq (JStr (sku p)) psku = true)
  /\ (forall d body items it,
        items_of body = JArr items ->
        In it items ->
        variant_for d it = None ->
        fst (response (checkout faults now d body)) = 500%nat
        /\ store (checkout faults now d body) = d)
  /\ (forall d body pre it post ls,
        (forall n, faults n = None) ->
        bind_value (phone_of body) = inr (phone_of body) ->
        items_of body = JArr (pre ++ it :: post) ->
        resolved_lines d pre = Some ls ->
        no_row_found d it = true ->
        response (checkout faults now d body)
        = (500%nat,
           JObj [("ok", JBool false); ("error", JStr "Variant not found")])
        /\ store (checkout faults now d body) = d).
Proof.
  split; [exact resolve_variant_by_id |].
  split; [exact resolve_variant_by_sku |].
  split; [intros d psku gq; split;
          [apply variants_by_sku_one | apply variants_by_sku_In] |].
  split; [exact checkout_unresolved |].
  intros d body pre it post ls Hnf Hp Hit Hls Hnone.
  destruct (@try_block_variant_not_found (email_of body) (phone_of body)
              (coupon_of body) (session_of body) pre it post d ls
              Hnf Hp Hls Hnone) as (c & Hrun).
  assert (Hsh : exists x rest, pre ++ it :: post = x :: rest).
  { destruct pre as [| x r]; simpl; eauto. }
  destruct Hsh as (x & rest & Hsh). rewrite Hsh in Hit, Hrun.
  destruct (checkout_ends faults now d body Hit)
    as (evs & _ & [(e & He & Hc) | (json & d' & Hj & _)]).
  - unfold attempt in He. rewrite Hrun in He. injection He as <-.
    rewrite Hc. split; reflexivity.
  - unfold attempt in Hj. rewrite Hrun in Hj. discriminate.
Qed.
End Dispatch.

(** ** The handler on the example shop *)

Section Examples.
Existing Instance plain_platform.

Example abandoned_cart_run :
  checkout no_faults 1000 shop abandoned_cart
  = {| response := (500%nat, failure_body "Variant not found");
       store := shop;
       events :=
         [EvAcquire; EvBegin;
          EvQuery (SelectUserByEmail (JStr "new@example.com"));
          EvQuery (InsertUser (JStr "new@example.com") (JStr "222"));
          EvQuery (SelectVariantById (jnum 1));
          EvQuery (SelectVariantBySku (JStr "ABC") (Fin 777));
          EvRollback; EvRelease] |}.
Proof. vm_compute. reflexivity. Qed.

Example known_user_keeps_phone :
  users (store (checkout no_faults 1000 shop known_user_cart)) = users shop
  /\ response (checkout no_faults 1000 shop known_user_cart)
     = (200%nat, success_body 1 (Fin 50) (Fin 0) (Fin 50)).
Proof. split; vm_compute; reflexivity. Qed.

Example save10_scenario :
  response
    (checkout no_faults 1000 shop
       (JObj [("items", JArr [by_id 1 (jnum 2)]);
              ("couponCode", JStr "SAVE10")]))
  = (200%nat, success_body 1 (Fin 50) (Fin (500 # 100)) (Fin (4500 # 100))).
Proof. vm_compute. reflexivity. Qed.

Example store_fault_rolls_back :
  checkout (fun n => if Nat.eqb n 3 then Some "Deadlock found" else None)
    1000 shop known_user_cart
  = {| response := (500%nat, failure_body "Deadlock found");
       store := shop;
       events :=
         [EvAcquire; EvBegin;
          EvQuery (SelectUserByEmail (JStr "ada@example.com"));
          EvQuery (SelectVariantById (jnum 1));
          EvQuery (SelectCoupon (JStr "OLD"));
          EvRollback; EvRelease] |}.
Proof. vm_compute. reflexivity. Qed.

Example null_item_raises :
  response (checkout no_faults 1000 shop (JObj [("items", JArr [JNull])]))
  = (500%nat,
     failure_body "Cannot read properties of null (reading 'variantId')").
Proof. vm_compute. reflexivity. Qed.



(** C4, as stated, fails: with a stored coupon value of -5 a successful
    checkout computes the discount -5. *)
Lemma negative_coupon_negative_discount :
  response (checkout no_faults 1000 careless_shop negative_cart)
  = (200%nat, success_body 1 (Fin 10) (Fin (-5)) (Fin 15))
  /\ ~ (0 <= -5).
Proof.
  split; [vm_compute; reflexivity |].
  intros H. unfold Qle in H. simpl in H. lia.
Qed.

(** C7, as stated, fails: the item carries the variant id 0, no variant has
    that id, and the variant is looked up by SKU and weight and found. *)
Lemma present_variant_id_not_used :
  get_prop zero_id_item "variantId" = inr (jnum 0)
  /\ variants_by_id shop (jnum 0) = []
  /\ checkout no_faults 1000 shop zero_id_cart
     = {| response := (200%nat, success_body 1 (Fin 10) (Fin 0) (Fin 10));
          store :=
            with_order_items
              (with_orders shop
                 [{| order_id := 1; order_user := None;
                     session_id := JStr ""; total_amount := 10;
                     status := "created"; payment_reference := None |}])
              [{| item_id := 1; item_order := 1; item_variant := 2;
                  quantity := 1; unit_price := 10 |}];
          events :=
            [EvAcquire; EvBegin;
             EvQuery (SelectVariantBySku (JStr "ABC") (Fin 500));
             EvQuery (InsertOrder None (JStr "") (Fin 10));
             EvQuery (InsertOrderItem 1 2 (Fin 1) (Fin 10));
             EvCommit; EvRelease] |}.
Proof. repeat split; vm_compute; reflexivity. Qed.
End Examples.

(** ** The theorems at work on the example shop *)

Section Instances.
Existing Instance plain_platform.

Lemma checkout_failure_rolls_back_lost_connection :
  answer (checkout_handler lost_after_begin 1000 (Some "Connection lost")
            shop new_user_cart) = None
  /\ thrown (checkout_handler lost_after_begin 1000 (Some "Connection lost")
               shop new_user_cart) = Some (Error "Connection lost")
  /\ kept (checkout_handler lost_after_begin 1000 (Some "Connection lost")
             shop new_user_cart) = shop
  /\ answer (checkout_handler lost_after_begin 1000 None shop new_user_cart)
     = Some (500%nat,
             JObj [("ok", JBool false); ("error", JStr "Connection lost")]).
Proof.
  destruct (@checkout_failure_rolls_back plain_platform lost_after_begin 1000
              (Some "Connection lost") shop new_user_cart (by_id 1 (jnum 2))
              [by_sku "ABC" 500 JUndefined] (Error "Connection lost"))
    as (H1 & _ & _ & _ & _ & _ & H2).
  - reflexivity.
  - vm_compute. reflexivity.
  - destruct (H2 "Connection lost" eq_refl) as (Ha & Ht).
    split; [exact Ha |]. split; [exact Ht |]. split; [exact H1 |].
    destruct (@checkout_failure_rolls_back plain_platform lost_after_begin
                1000 None shop new_user_cart (by_id 1 (jnum 2))
                [by_sku "ABC" 500 JUndefined] (Error "Connection lost"))
      as (_ & _ & _ & _ & _ & H3 & _).
    + reflexivity.
    + vm_compute. reflexivity.
    + apply H3. reflexivity.
Defined.

Lemma checkout_empty_cart_no_items :
  checkout no_faults 1000 shop (JObj [("email", JStr "ada@example.com")])
  = {| response :=
         (400%nat,
          JObj [("ok", JBool false); ("error", JStr "Cart is empty")]);
       store := shop; events := [] |}.
Proof.
  apply (@checkout_empty_cart plain_platform no_faults 1000 shop
           (JObj [("email", JStr "ada@example.com")])).
  left. reflexivity.
Defined.


Lemma checkout_persists_order_new_user :
  exists orderId t,
    0 <= t
    /\ orders (store (checkout no_faults 1000 shop new_user_cart))
       = orders shop
         ++ [{| order_id := orderId;
                order_user :=
                  resolved_user shop (email_of new_user_cart)
                    (phone_of new_user_cart);
                session_id := session_of new_user_cart;
                total_amount := t;
                status := "created";
                payment_reference := None |}].
Proof.
  destruct (@checkout_persists_order plain_platform no_faults 1000 shop
              new_user_cart)
    as (items & resolved & orderId & subtotal & discount & t & rows
        & _ & _ & _ & _ & Ht & Ho & _).
  - vm_compute. reflexivity.
  - exists orderId, t. split; [exact Ht | exact Ho].
Defined.

Lemma checkout_resolves_user_known_and_new :
  users (store (checkout no_faults 1000 shop known_user_cart)) = users shop
  /\ (exists order,
        orders (store (checkout no_faults 1000 shop known_user_cart))
        = orders shop ++ [order]
        /\ order_user order = Some 1%Z)
  /\ exists order id,
       orders (store (checkout no_faults 1000 shop new_user_cart))
       = orders shop ++ [order]
       /\ users (store (checkout no_faults 1000 shop new_user_cart))
          = users shop
            ++ [{| user_id := id; first_name := ""; last_name := "";
                   user_email := JStr "new@example.com";
                   user_phone := JStr "222"; password_hash := "" |}]
       /\ order_user order = Some id.
Proof.
  pose (ada := {| user_id := 1; first_name := "Ada"; last_name := "L";
                  user_email := JStr "ada@example.com";
                  user_phone := JStr "111"; password_hash := "h" |}).
  destruct (@checkout_resolves_user plain_platform no_faults 1000 shop
              known_user_cart) as (_ & Hk & Hs).
  split; [| split].
  - apply (Hk ada).
    + reflexivity.
    + left. reflexivity.
    + reflexivity.
  - destruct Hs as (order & Ho & _ & Hf & _).
    + vm_compute. reflexivity.
    + exists order. split; [exact Ho |].
      apply (Hf [] ada []).
      * reflexivity.
      * reflexivity.
      * constructor.
      * reflexivity.
  - destruct (@checkout_resolves_user plain_platform no_faults 1000 shop
                new_user_cart) as (_ & _ & H).
    destruct H as (order & Ho & _ & _ & H).
    + vm_compute. reflexivity.
    + destruct H as (id & _ & Hu & Hi).
      * reflexivity.
      * constructor; [reflexivity | constructor].
      * exists order, id. split; [exact Ho |]. split; [exact Hu | exact Hi].
Defined.


Lemma discount_within_subtotal_new_user :
  exists orderId subtotal discount total,
    response (checkout no_faults 1000 shop new_user_cart)
    = (200%nat,
       success_body orderId (Fin subtotal) (Fin discount) (Fin total))
    /\ 0 <= discount
    /\ discount <= subtotal.
Proof.
  apply (@discount_within_subtotal plain_platform no_faults 1000 shop
           new_user_cart).
  - repeat (constructor; [unfold Qle; simpl; lia |]). constructor.
  - repeat (constructor; [unfold Qle; simpl; lia |]). constructor.
  - vm_compute. reflexivity.
Defined.


Lemma variant_lookup_abandoned :
  response (checkout no_faults 1000 shop abandoned_cart)
  = (500%nat,
     JObj [("ok", JBool false); ("error", JStr "Variant not found")])
  /\ store (checkout no_faults 1000 shop abandoned_cart) = shop.
Proof.
  destruct (@variant_lookup plain_platform no_faults 1000)
    as (_ & _ & _ & _ & H).
  apply (H shop abandoned_cart [by_id 1 (jnum 2)]
           (by_sku "ABC" 777 (jnum 1)) []
           [{| r_variantId := 1; r_qty := Fin 2; r_unit := Fin 25 |}]).
  - intros n. reflexivity.
  - reflexivity.
  - reflexivity.
  - vm_compute. reflexivity.
  - vm_compute. reflexivity.
Defined.
End Instances.

(** ** More on the checkout *)





Section Writes.
Context {P : Platform}.
Variable faults : nat -> option string.
Variable now : Z.









End Writes.

Lemma math_max_zero_sub (s x t : Q) :
  x <= s -> math_max (Fin 0) (nsub (Fin s) (Fin x)) = Fin t -> t == s - x.
Proof.
  intros Hx H. simpl in H. apply Fin_inj in H. subst t.
  destruct (Qle_bool 0 (s - x)) eqn:E; [reflexivity |].
  apply Qle_bool_false in E. lra.
Qed.

Section CheckoutMore.
Context {P : Platform}.
Variable faults : nat -> option string.
Variable now : Z.


(** X2. On a store whose variant prices and coupon values are not negative,
    the [Math.max(0, ...)] of the total never bites: a successful checkout
    answers [total = subtotal - discount], and the total is not above the
    subtotal. *)
Theorem total_is_subtotal_minus_discount (d : db) (body : jsval) :
  Forall (fun v => 0 <= price v) (product_variants d) ->
  Forall (fun c => 0 <= value c) (coupons d) ->
  fst (response (checkout faults now d body)) = 200%nat ->
  exists orderId subtotal discount total,
    response (checkout faults now d body)
    = (200%nat,
       success_body orderId (Fin subtotal) (Fin discount) (Fin total))
    /\ total == subtotal - discount
    /\ total <= subtotal.
Proof.
  intros Hv Hc H. apply checkout_success in H.
  destruct H as (items & ls & t & rows & _ & _ & H3 & H4 & H5 & _ & _).
  destruct (accumulate ls (Fin 0)) as [s |] eqn:Hs; [| discriminate].
  destruct (discount_for now d (coupon_of body) (Fin s)) as [dd |] eqn:Hd;
    [| discriminate].
  assert (Hs0 : 0 <= s).
  { eapply accumulate_nonneg; [| apply Qle_refl | exact Hs].
    eapply resolved_lines_priced; [exact Hv | exact H3]. }
  destruct (discount_for_bounds now d (coupon_of body) Hc Hs0 Hd) as (Hd0 & Hd1).
  pose proof (math_max_zero_sub Hd1 H4) as Ht.
  do 4 eexists. split; [exact H5 |]. split; [exact Ht |]. lra.
Qed.

(** X3. The clamp of the discount: in a successful checkout whose coupon
    applies, a coupon amount not below the subtotal makes the discount the
    whole subtotal and the total 0; an amount not above the subtotal is the
    discount as it stands. *)
Theorem discount_clamped_to_subtotal (d : db) (body : jsval) :
  fst (response (checkout faults now d body)) = 200%nat ->
  exists orderId subtotal discount total,
    response (checkout faults now d body)
    = (200%nat, success_body orderId (Fin subtotal) discount (Fin total))
    /\ forall c0 l a,
         truthy (coupon_of body) = true ->
         coupons_by_code now d (coupon_of body) = c0 :: l ->
         coupon_applies (c0 :: l) (Fin subtotal) = true ->
         coupon_amount c0 (Fin subtotal) = Fin a ->
         exists x,
           discount = Fin x
           /\ (subtotal <= a -> x == subtotal /\ total == 0)
           /\ (a <= subtotal -> x == a).
Proof.
  intros H. apply checkout_success in H.
  destruct H as (items & ls & t & rows & _ & _ & H3 & H4 & H5 & _ & _).
  destruct (accumulate ls (Fin 0)) as [s |] eqn:Hs; [| discriminate].
  do 4 eexists. split; [exact H5 |].
  intros c0 l a Hk Hc Ha Hamt.
  rewrite <- Hc in Ha.
  destruct (discount_for_applies now d (coupon_of body) (Fin s) Hk Ha)
    as (c1 & l1 & Hc1 & Hd).
  rewrite Hc in Hc1. injection Hc1 as <- <-.
  rewrite Hd, Hamt in H4 |- *. simpl in H4 |- *.
  eexists. split; [reflexivity |].
  apply Fin_inj in H4.
  destruct (Qle_bool a s) eqn:E.
  - apply Qle_bool_iff in E. split.
    + intros Hsa. split; [lra |]. subst t.
      destruct (Qle_bool 0 (s - a)); lra.
    + intros _. reflexivity.
  - apply Qle_bool_false in E. split.
    + intros _. split; [reflexivity |]. subst t.
      destruct (Qle_bool 0 (s - s)); lra.
    + intros Has. lra.
Qed.
End CheckoutMore.

Section CheckoutTwice.
Context {P : Platform}.

Lemma checkout_keeps_users (faults : nat -> option string) (now : Z) (d : db)
      (body : jsval) :
  users_after d (email_of body) (phone_of body) = users d ->
  users (store (checkout faults now d body)) = users d.
Proof.
  intros Hu.
  destruct (Nat.eq_dec (fst (response (checkout faults now d body))) 200)
    as [E | E].
  - apply checkout_success in E.
    destruct E as (items & resolved & t & rows & _ & _ & _ & _ & _ & _ & E).
    rewrite E. exact Hu.
  - rewrite (checkout_no_success faults now d body E). reflexivity.
Qed.

(** The user rows with an email, once a checkout with that email has
    succeeded: the first of them has the id the checkout resolved. *)
Lemma users_by_email_after (d : db) (email phone : jsval) :
  truthy email = true ->
  sql_eq email email = true ->
  exists u0 l,
    filter (fun u => sql_eq (user_email u) email) (users_after d email phone)
    = u0 :: l
    /\ resolved_user d email phone = Some (user_id u0).
Proof.
  intros Ht Hrefl. unfold users_after, resolved_user. rewrite Ht.
  unfold users_by_email.
  destruct (filter (fun u => sql_eq (user_email u) email) (users d))
    as [| u0 l] eqn:E.
  - rewrite filter_app, E. simpl. rewrite Hrefl.
    exists (new_user d email phone), []. split; reflexivity.
  - rewrite E. exists u0, l. split; reflexivity.
Qed.

(** X4. Two checkouts with the same non-empty email never create two user
    rows: once a checkout with that email has succeeded, a later checkout
    with it (whatever its phone, items or coupon, and whether it succeeds or
    not) inserts no user row, and when it succeeds its order carries the user
    id of the first order.  The store is taken to find an email equal to
    itself. *)
Theorem same_email_one_user (faults1 faults2 : nat -> option string)
        (now1 now2 : Z) (d : db) (body1 body2 : jsval) :
  truthy (email_of body1) = true ->
  sql_eq (email_of body1) (email_of body1) = true ->
  email_of body2 = email_of body1 ->
  fst (response (checkout faults1 now1 d body1)) = 200%nat ->
  users (store (checkout faults2 now2
                  (store (checkout faults1 now1 d body1)) body2))
  = users (store (checkout faults1 now1 d body1))
  /\ (fst (response (checkout faults2 now2
                       (store (checkout faults1 now1 d body1)) body2))
      = 200%nat ->
      exists o1 o2 uid,
        orders (store (checkout faults1 now1 d body1)) = orders d ++ [o1]
        /\ orders (store (checkout faults2 now2
                            (store (checkout faults1 now1 d body1)) body2))
           = orders (store (checkout faults1 now1 d body1)) ++ [o2]
        /\ order_user o1 = Some uid
        /\ order_user o2 = Some uid).
Proof.
  intros Ht Hrefl He H1.
  apply checkout_success in H1.
  destruct H1 as (items & ls & t & rows & _ & _ & _ & _ & _ & _ & E1).
  remember (store (checkout faults1 now1 d body1)) as d1 eqn:Hd1.
  clear Hd1.
  destruct (@users_by_email_after d (email_of body1) (phone_of body1)
              Ht Hrefl) as (u0 & l & Hf & Hr).
  assert (Hfound : users_by_email d1 (email_of body2) = u0 :: l).
  { unfold users_by_email. rewrite He, E1. exact Hf. }
  assert (Hafter : users_after d1 (email_of body2) (phone_of body2) = users d1).
  { unfold users_after. rewrite Hfound, He, Ht. reflexivity. }
  split.
  - apply checkout_keeps_users. exact Hafter.
  - intros H2. apply checkout_success in H2.
    destruct H2 as (items2 & ls2 & t2 & rows2 & _ & _ & _ & _ & _ & _ & E2).
    rewrite E2. simpl orders.
    exists (new_order d
              (resolved_user d (email_of body1) (phone_of body1))
              (session_of body1) t).
    eexists. exists (user_id u0).
    split; [rewrite E1; reflexivity |]. split; [reflexivity |]. simpl.
    split; [exact Hr |].
    unfold resolved_user. rewrite Hfound, He, Ht. reflexivity.
Qed.
End CheckoutTwice.

Section CheckoutEdges.
Context {P : Platform}.
Variable faults : nat -> option string.
Variable now : Z.

(** X5. A quantity is not defaulted when it does not convert to a number: if
    [Math.max(1, Number(it.qty || 1))] is NaN for some item, the checkout
    answers 500 and the store is what it was (the store refuses the NaN the
    total then is). *)
Theorem non_numeric_quantity_fails (d : db) (body : jsval)
        (items : list jsval) (it : jsval) :
  items_of body = JArr items ->
  In it items ->
  qty_of it = NaN ->
  fst (response (checkout faults now d body)) = 500%nat
  /\ store (checkout faults now d body) = d.
Proof.
  intros Hit Hin Hnan.
  assert (Hns : fst (response (checkout faults now d body)) <> 200%nat).
  { intros H. apply checkout_success in H.
    destruct H as (items' & ls & t & rows & H1 & _ & H3 & H4 & _).
    rewrite Hit in H1. injection H1 as <-.
    destruct (accumulate ls (Fin 0)) as [s |] eqn:Hs; [| discriminate].
    apply accumulate_finite in Hs. destruct Hs as (_ & Hfin).
    pose proof (resolved_lines_qty d items H3 Hfin) as Hq.
    rewrite Forall_forall in Hq. destruct (Hq it Hin) as (x & Hx & _).
    rewrite Hnan in Hx. discriminate. }
  split; [| apply checkout_no_success; exact Hns].
  destruct items as [| x rest]; [contradiction |].
  destruct (checkout_ends faults now d body Hit)
    as (evs & _ & [(e & _ & Hc) | (json & d' & _ & _ & Hc)]).
  - rewrite Hc. reflexivity.
  - exfalso. apply Hns. rewrite Hc. reflexivity.
Qed.

(** X6. When opening the transaction fails, the handler sends no statement
    and still calls rollback and releases the connection.  It answers 500
    with the message of the failure when that rollback succeeds; when the
    rollback rejects as well, no response is sent and the handler ends with
    the error of the rollback. *)
Theorem begin_failure_sends_nothing (rb : option string) (d : db)
        (body it : jsval) (rest : list jsval) (msg : string) :
  items_of body = JArr (it :: rest) ->
  faults 0%nat = Some msg ->
  checkout_handler faults now rb d body
  = {| answer :=
         match rb with
         | None =>
             Some (500%nat,
                   JObj [("ok", JBool false); ("error", JStr msg)])
         | Some _ => None
         end;
       thrown :=
         match rb with
         | None => None
         | Some m => Some (Error m)
         end;
       kept := d;
       history := [EvAcquire; EvBegin; EvRollback; EvRelease] |}.
Proof.
  intros Hit Hf. unfold checkout_handler. cbv zeta.
  unfold items_of in Hit. rewrite Hit.
  unfold try_block, bind, begin_transaction. simpl. rewrite Hf.
  destruct rb; reflexivity.
Qed.
End CheckoutEdges.

(** ** The order of the listing *)

Lemma row_leb_le (a b : listing_row) : row_leb a b = true <-> row_le a b.
Proof.
  unfold row_leb, row_le. rewrite orb_true_iff, andb_true_iff.
  rewrite Z.ltb_lt, Z.eqb_eq, Qle_bool_iff. reflexivity.
Qed.

Lemma row_le_total (a b : listing_row) : row_le a b \/ row_le b a.
Proof.
  unfold row_le.
  destruct (Z.lt_trichotomy (row_pid a) (row_pid b)) as [H | [H | H]]; auto.
  destruct (Qlt_le_dec (row_grams b) (row_grams a)) as [K | K].
  - right. right. split; [auto | apply Qlt_le_weak; exact K].
  - left. right. auto.
Qed.

Lemma row_le_trans (a b c : listing_row) :
  row_le a b -> row_le b c -> row_le a c.
Proof.
  unfold row_le. intros [H | [H1 H2]] [K | [K1 K2]].
  - left. lia.
  - left. lia.
  - left. lia.
  - right. split; [congruence | eapply Qle_trans; eassumption].
Qed.

Lemma insert_row_perm (r : listing_row) (l : list listing_row) :
  Permutation (insert_row r l) (r :: l).
Proof.
  induction l as [| x rest IH]; simpl; [reflexivity |].
  destruct (row_leb r x); [reflexivity |].
  rewrite IH. apply perm_swap.
Qed.

Lemma order_rows_perm (l : list listing_row) : Permutation (order_rows l) l.
Proof.
  induction l as [| x rest IH]; simpl; [reflexivity |].
  rewrite insert_row_perm. constructor. exact IH.
Qed.

Lemma insert_row_sorted (r : listing_row) (l : list listing_row) :
  StronglySorted row_le l -> StronglySorted row_le (insert_row r l).
Proof.
  induction 1 as [| x rest Hrest IH Hx]; simpl.
  - constructor; constructor.
  - destruct (row_leb r x) eqn:E.
    + apply row_leb_le in E. constructor.
      * constructor; assumption.
      * constructor; [exact E |].
        eapply Forall_impl; [| exact Hx].
        intros y Hy. eapply row_le_trans; eassumption.
    + assert (Hxr : row_le x r).
      { destruct (row_le_total x r) as [H | H]; [exact H |].
        apply row_leb_le in H. congruence. }
      constructor; [exact IH |].
      rewrite (Forall_forall (row_le x)). intros y Hy.
      apply (Permutation_in _ (insert_row_perm r rest)) in Hy.
      destruct Hy as [<- | Hy]; [exact Hxr |].
      rewrite Forall_forall in Hx. apply Hx. exact Hy.
Qed.

Lemma order_rows_sorted (l : list listing_row) :
  StronglySorted row_le (order_rows l).
Proof.
  induction l as [| x rest IH]; simpl; [constructor |].
  apply insert_row_sorted. exact IH.
Qed.

(** ** The [Map] of the listing *)

Lemma map_has_get (k : Z) (m : product_map) :
  map_has k m = match map_get k m with Some _ => true | None => false end.
Proof.
  induction m as [| [k' v] rest IH]; simpl; [reflexivity |].
  destruct (Z.eqb k' k); [reflexivity | exact IH].
Qed.

Lemma map_has_keys (k : Z) (m : product_map) :
  map_has k m = true <-> In k (map fst m).
Proof.
  unfold map_has. rewrite existsb_exists, in_map_iff. split.
  - intros (e & He & H). apply Z.eqb_eq in H. exists e. auto.
  - intros (e & H & He). exists e. split; [exact He |]. apply Z.eqb_eq. exact H.
Qed.

Lemma map_set_new (k : Z) (v : product_entry) (m : product_map) :
  map_has k m = false -> map_set k v m = m ++ [(k, v)].
Proof.
  induction m as [| [k' v'] rest IH]; simpl; [reflexivity |].
  destruct (Z.eqb k' k); [discriminate |].
  simpl. intros H. rewrite (IH H). reflexivity.
Qed.

Lemma map_update_keys (k : Z) (f : product_entry -> product_entry)
      (m : product_map) :
  map fst (map_update k f m) = map fst m.
Proof.
  induction m as [| [k' v] rest IH]; simpl; [reflexivity |].
  destruct (Z.eqb k' k); simpl; [reflexivity | rewrite IH; reflexivity].
Qed.

Lemma map_get_update (k k' : Z) (f : product_entry -> product_entry)
      (m : product_map) :
  map_get k (map_update k' f m)
  = if Z.eqb k' k then option_map f (map_get k m) else map_get k m.
Proof.
  induction m as [| [k0 v] rest IH]; simpl.
  - destruct (Z.eqb k' k); reflexivity.
  - destruct (Z.eqb k0 k') eqn:E0; simpl.
    + apply Z.eqb_eq in E0. subst k0.
      destruct (Z.eqb k' k); reflexivity.
    + destruct (Z.eqb k0 k) eqn:E1; [| exact IH].
      apply Z.eqb_eq in E1. subst k0.
      rewrite Z.eqb_sym, E0. reflexivity.
Qed.

Lemma map_get_app (k k' : Z) (v : product_entry) (m : product_map) :
  map_get k (m ++ [(k', v)])
  = match map_get k m with
    | Some e => Some e
    | None => if Z.eqb k' k then Some v else None
    end.
Proof.
  induction m as [| [k0 v0] rest IH]; simpl; [reflexivity |].
  destruct (Z.eqb k0 k); [reflexivity | exact IH].
Qed.

Lemma map_get_In (k : Z) (e : product_entry) (m : product_map) :
  map_get k m = Some e -> In (k, e) m.
Proof.
  induction m as [| [k' v] rest IH]; simpl; [discriminate |].
  destruct (Z.eqb k' k) eqn:E.
  - apply Z.eqb_eq in E. intros H. injection H as ->. left. congruence.
  - intros H. right. exact (IH H).
Qed.

Lemma In_map_get (k : Z) (e : product_entry) (m : product_map) :
  NoDup (map fst m) -> In (k, e) m -> map_get k m = Some e.
Proof.
  induction m as [| [k' v] rest IH]; simpl; [contradiction |].
  intros Hnd [H | H].
  - injection H as -> ->. rewrite Z.eqb_refl. reflexivity.
  - inversion Hnd as [| ? ? Hnot Hnd']; subst.
    destruct (Z.eqb k' k) eqn:E; [| exact (IH Hnd' H)].
    apply Z.eqb_eq in E. subst k'. exfalso. apply Hnot.
    apply in_map_iff. exists (k, e). auto.
Qed.

Lemma with_rows_nil (e : product_entry) : with_rows e [] = e.
Proof. destruct e. unfold with_rows. simpl. rewrite app_nil_r. reflexivity. Qed.

Lemma with_rows_push (e : product_entry) (r : listing_row)
      (rs : list listing_row) :
  with_rows (push_variant (variant_of r) e) rs = with_rows e (r :: rs).
Proof.
  unfold with_rows, push_variant. simpl. rewrite <- app_assoc. reflexivity.
Qed.

Lemma group_step_keys (m : product_map) (r : listing_row) :
  map fst (group_step m r)
  = if map_has (row_pid r) m then map fst m else map fst m ++ [row_pid r].
Proof.
  unfold group_step. rewrite map_update_keys.
  destruct (map_has (row_pid r) m) eqn:E; simpl; [reflexivity |].
  rewrite (map_set_new _ _ _ E), map_app. reflexivity.
Qed.

Lemma group_step_get (m : product_map) (r : listing_row) (k : Z) :
  map_get k (group_step m r)
  = if Z.eqb (row_pid r) k
    then Some (push_variant (variant_of r)
                 match map_get k m with
                 | Some e => e
                 | None => product_of r
                 end)
    else map_get k m.
Proof.
  unfold group_step. rewrite map_get_update.
  destruct (Z.eqb (row_pid r) k) eqn:E.
  - apply Z.eqb_eq in E. subst k. rewrite map_has_get.
    destruct (map_get (row_pid r) m) as [e |] eqn:G; simpl.
    + rewrite G. reflexivity.
    + assert (H : map_has (row_pid r) m = false)
        by (rewrite map_has_get, G; reflexivity).
      rewrite (map_set_new _ _ _ H), map_get_app, G, Z.eqb_refl. reflexivity.
  - destruct (map_has (row_pid r) m) eqn:H; simpl; [reflexivity |].
    rewrite (map_set_new _ _ _ H), map_get_app, E.
    destruct (map_get k m); reflexivity.
Qed.

Lemma fold_group_get (rows : list listing_row) :
  forall (m : product_map) (k : Z),
    map_get k (fold_left group_step rows m)
    = match map_get k m, rows_of k rows with
      | Some e, rs => Some (with_rows e rs)
      | None, [] => None
      | None, r :: rs => Some (with_rows (product_of r) (r :: rs))
      end.
Proof.
  induction rows as [| r rest IH]; intros m k; simpl.
  - destruct (map_get k m) as [e |]; [rewrite with_rows_nil |]; reflexivity.
  - rewrite IH, group_step_get. unfold rows_of. simpl.
    destruct (Z.eqb (row_pid r) k) eqn:E.
    + rewrite with_rows_push.
      destruct (map_get k m) as [e |]; reflexivity.
    + reflexivity.
Qed.

Lemma fold_group_keys (rows : list listing_row) :
  forall m : product_map,
    NoDup (map fst m) ->
    NoDup (map fst (fold_left group_step rows m)).
Proof.
  induction rows as [| r rest IH]; intros m H; simpl; [exact H |].
  apply IH. rewrite group_step_keys.
  destruct (map_has (row_pid r) m) eqn:E; [exact H |].
  apply NoDup_app; [exact H | repeat constructor; intros [] | ].
  intros k Hk [<- | []].
  apply map_has_keys in Hk. congruence.
Qed.

(** ** The listing, grouped *)

Lemma sorted_snoc (l : list Z) (x : Z) :
  StronglySorted Z.lt l -> Forall (fun y => (y < x)%Z) l ->
  StronglySorted Z.lt (l ++ [x]).
Proof.
  induction 1 as [| y rest Hrest IH Hy]; intros H; simpl.
  - constructor; constructor.
  - inversion H as [| ? ? Hyx Hrx]; subst. constructor; [exact (IH Hrx) |].
    apply Forall_app. split; [exact Hy | constructor; [exact Hyx | constructor]].
Qed.

Lemma sorted_snoc_inv (l : list Z) (x : Z) :
  StronglySorted Z.lt (l ++ [x]) -> Forall (fun y => (y < x)%Z) l.
Proof.
  induction l as [| y rest IH]; simpl; intros H; [constructor |].
  inversion H as [| ? ? Hrest Hy]; subst. constructor; [| exact (IH Hrest)].
  rewrite Forall_forall in Hy. apply Hy. apply in_or_app. right. left.
  reflexivity.
Qed.

Lemma map_update_last (k : Z) (f : product_entry -> product_entry)
      (m : product_map) (e : product_entry) :
  ~ In k (map fst m) ->
  map_update k f (m ++ [(k, e)]) = m ++ [(k, f e)].
Proof.
  induction m as [| [k' v] rest IH]; simpl; intros H.
  - rewrite Z.eqb_refl. reflexivity.
  - destruct (Z.eqb k' k) eqn:E.
    + apply Z.eqb_eq in E. exfalso. apply H. left. exact E.
    + rewrite IH; [reflexivity |]. intros K. apply H. right. exact K.
Qed.

Lemma last_key (m : product_map) (k : Z) :
  StronglySorted Z.lt (map fst m) ->
  In k (map fst m) ->
  (forall k', In k' (map fst m) -> (k' <= k)%Z) ->
  exists m0 e, m = m0 ++ [(k, e)] /\ ~ In k (map fst m0).
Proof.
  intros Hs Hin Hmax.
  destruct m as [| x rest]; [contradiction |].
  destruct (@exists_last _ (x :: rest)) as (m0 & [k1 e] & Hm);
    [discriminate |].
  rewrite Hm in *. clear Hm.
  rewrite map_app in Hs, Hin, Hmax. simpl in Hs, Hin, Hmax.
  apply sorted_snoc_inv in Hs. rewrite Forall_forall in Hs.
  assert (Hk1 : (k1 <= k)%Z).
  { apply Hmax. apply in_or_app. right. left. reflexivity. }
  assert (Hnot : ~ In k (map fst m0)).
  { intros K. apply Hs in K. lia. }
  apply in_app_or in Hin. destruct Hin as [K | [K | []]]; [contradiction |].
  subst k1. exists m0, e. auto.
Qed.

Lemma flat_variants_app (m1 m2 : product_map) :
  flat_map pe_variants (map snd (m1 ++ m2))
  = flat_map pe_variants (map snd m1) ++ flat_map pe_variants (map snd m2).
Proof. rewrite map_app, flat_map_app. reflexivity. Qed.

(** Rows that come by product id fill the map from its end. *)
Lemma fold_group_sorted (rows : list listing_row) :
  forall m : product_map,
    StronglySorted pid_le rows ->
    StronglySorted Z.lt (map fst m) ->
    (forall k r, In k (map fst m) -> In r rows -> (k <= row_pid r)%Z) ->
    StronglySorted Z.lt (map fst (fold_left group_step rows m))
    /\ flat_map pe_variants (map snd (fold_left group_step rows m))
       = flat_map pe_variants (map snd m) ++ map variant_of rows.
Proof.
  induction rows as [| r rest IH]; intros m Hrows Hm Hle; simpl.
  - rewrite app_nil_r. auto.
  - inversion Hrows as [| ? ? Hrest Hr]; subst.
    rewrite Forall_forall in Hr.
    assert (Hkeys : forall k, In k (map fst m) -> (k <= row_pid r)%Z).
    { intros k Hk. apply Hle; [exact Hk | left; reflexivity]. }
    assert (Hstep :
      StronglySorted Z.lt (map fst (group_step m r))
      /\ (forall k, In k (map fst (group_step m r)) -> (k <= row_pid r)%Z)
      /\ flat_map pe_variants (map snd (group_step m r))
         = flat_map pe_variants (map snd m) ++ [variant_of r]).
    { rewrite group_step_keys. unfold group_step.
      destruct (map_has (row_pid r) m) eqn:E; simpl negb; cbv iota.
      - split; [exact Hm |]. split; [exact Hkeys |].
        apply map_has_keys in E.
        destruct (last_key m Hm E Hkeys) as (m0 & e & -> & Hnot).
        rewrite map_update_last by exact Hnot.
        rewrite !flat_variants_app. simpl.
        rewrite !app_nil_r, app_assoc. reflexivity.
      - assert (Hnot : ~ In (row_pid r) (map fst m)).
        { intros K. apply map_has_keys in K. congruence. }
        split; [| split].
        + apply sorted_snoc; [exact Hm |].
          rewrite Forall_forall. intros k Hk.
          specialize (Hkeys k Hk).
          assert (k <> row_pid r) by (intros ->; contradiction). lia.
        + intros k Hk. apply in_app_or in Hk.
          destruct Hk as [Hk | [<- | []]]; [exact (Hkeys k Hk) | lia].
        + rewrite (map_set_new _ _ _ E).
          rewrite map_update_last by exact Hnot.
          rewrite !flat_variants_app. simpl. reflexivity. }
    destruct Hstep as (S1 & S2 & S3).
    destruct (IH (group_step m r) Hrest S1) as (I1 & I2).
    { intros k r' Hk Hr'. specialize (S2 k Hk). specialize (Hr r' Hr').
      unfold pid_le in Hr. lia. }
    split; [exact I1 |]. rewrite I2, S3, <- app_assoc. reflexivity.
Qed.

Lemma group_ids (rows : list listing_row) :
  map pe_id (group_rows rows) = map fst (fold_left group_step rows []).
Proof.
  unfold group_rows, map_values. rewrite map_map. apply map_ext_in.
  intros [k e] H. simpl.
  apply In_map_get in H; [| apply fold_group_keys; constructor].
  rewrite fold_group_get in H. simpl in H.
  destruct (rows_of k rows) as [| r rs] eqn:E; [discriminate |].
  injection H as <-. simpl.
  assert (Hr : In r (rows_of k rows)) by (rewrite E; left; reflexivity).
  apply filter_In in Hr. apply Z.eqb_eq. apply Hr.
Qed.

(** The entries of the grouped rows. *)
Lemma group_rows_In (rows : list listing_row) (e : product_entry) :
  In e (group_rows rows)
  <-> exists r rs,
        rows_of (pe_id e) rows = r :: rs
        /\ e = with_rows (product_of r) (r :: rs).
Proof.
  unfold group_rows, map_values. split.
  - intros H. apply in_map_iff in H. destruct H as ([k e'] & <- & H).
    simpl. apply In_map_get in H; [| apply fold_group_keys; constructor].
    rewrite fold_group_get in H. simpl in H.
    destruct (rows_of k rows) as [| r rs] eqn:E; [discriminate |].
    injection H as <-. simpl.
    assert (Hr : In r (rows_of k rows)) by (rewrite E; left; reflexivity).
    apply filter_In in Hr. destruct Hr as (_ & Hr). apply Z.eqb_eq in Hr.
    rewrite Hr. exists r, rs. auto.
  - intros (r & rs & E & He).
    apply in_map_iff. exists (pe_id e, e). split; [reflexivity |].
    apply map_get_In. rewrite fold_group_get. simpl. rewrite E, He.
    reflexivity.
Qed.

Lemma sorted_pid (rows : list listing_row) :
  StronglySorted row_le rows -> StronglySorted pid_le rows.
Proof.
  induction 1 as [| r rest Hrest IH Hr]; constructor; [exact IH |].
  eapply Forall_impl; [| exact Hr].
  intros b [H | [H _]]; unfold pid_le; lia.
Qed.

Lemma sorted_filter {A} (R : A -> A -> Prop) (f : A -> bool) (l : list A) :
  StronglySorted R l -> StronglySorted R (filter f l).
Proof.
  induction 1 as [| x rest Hrest IH Hx]; simpl; [constructor |].
  destruct (f x); [| exact IH]. constructor; [exact IH |].
  rewrite Forall_forall in *. intros y Hy. apply filter_In in Hy.
  apply Hx. apply Hy.
Qed.

Lemma rows_of_grams (k : Z) (rows : list listing_row) :
  StronglySorted row_le rows ->
  StronglySorted grams_le (map variant_of (rows_of k rows)).
Proof.
  intros H. apply (sorted_filter (fun r => Z.eqb (row_pid r) k)) in H.
  fold (rows_of k rows) in H.
  assert (Hk : Forall (fun r => row_pid r = k) (rows_of k rows)).
  { rewrite Forall_forall. intros r Hr. apply filter_In in Hr.
    apply Z.eqb_eq. apply Hr. }
  induction H as [| r rest Hrest IH Hr]; simpl; [constructor |].
  inversion Hk as [| ? ? Hk1 Hk2]; subst.
  constructor; [exact (IH Hk2) |].
  rewrite Forall_forall in *. intros x Hx. apply in_map_iff in Hx.
  destruct Hx as (b & <- & Hb). unfold grams_le. simpl.
  destruct (Hr b Hb) as [K | [_ K]]; [| exact K].
  specialize (Hk2 b Hb). lia.
Qed.

Section ListingFacts.
Context {P : Platform}.

Lemma joined_rows_In (c : catalogue) (r : listing_row) :
  In r (joined_rows c)
  <-> exists p v,
        In p (cat_products c) /\ In v (cat_variants c)
        /\ sql_eq (lp_status p) (JStr "active") = true
        /\ lv_product_id v = lp_id p
        /\ r = join_row p v.
Proof.
  unfold joined_rows. rewrite in_flat_map. split.
  - intros (p & Hp & Hr). apply filter_In in Hp. destruct Hp as (Hp & Ha).
    apply in_map_iff in Hr. destruct Hr as (v & <- & Hv).
    apply filter_In in Hv. destruct Hv as (Hv & Hid). apply Z.eqb_eq in Hid.
    exists p, v. auto.
  - intros (p & v & Hp & Hv & Ha & Hid & ->). exists p. split.
    + apply filter_In. auto.
    + apply in_map. apply filter_In. split; [exact Hv |].
      apply Z.eqb_eq. exact Hid.
Qed.

Lemma select_listing_In (c : catalogue) (r : listing_row) :
  In r (select_listing c) <-> In r (joined_rows c).
Proof.
  unfold select_listing. split; apply Permutation_in.
  - apply order_rows_perm.
  - apply Permutation_sym, order_rows_perm.
Qed.

Lemma rows_of_In (k : Z) (rows : list listing_row) (r : listing_row) :
  In r (rows_of k rows) <-> In r rows /\ row_pid r = k.
Proof. unfold rows_of. rewrite filter_In, Z.eqb_eq. reflexivity. Qed.

(** X7. Grouping rows by product, whatever their order: every product id
    gets one entry; the entry takes its sku, name, description and image
    from the first row of that id and its variants from all the rows of that
    id, in their order; and there is no other entry. *)
Theorem group_rows_by_product (rows : list listing_row) :
  NoDup (map pe_id (group_rows rows))
  /\ forall e,
       In e (group_rows rows)
       <-> exists r rs,
             rows_of (pe_id e) rows = r :: rs
             /\ pe_id e = row_pid r
             /\ pe_sku e = row_psku r
             /\ pe_name e = row_pname r
             /\ pe_description e = row_pdesc r
             /\ pe_image_url e = row_img r
             /\ pe_variants e = map variant_of (r :: rs).
Proof.
  split.
  - rewrite group_ids. apply fold_group_keys. constructor.
  - intros e. rewrite group_rows_In. split.
    + intros (r & rs & E & ->). exists r, rs. simpl.
      repeat split; try reflexivity. exact E.
    + intros (r & rs & E & H1 & H2 & H3 & H4 & H5 & H6).
      exists r, rs. split; [exact E |].
      destruct e. simpl in *. unfold with_rows, product_of. simpl.
      subst. reflexivity.
Qed.

(** X8. The listing loses and repeats nothing: the variants of the listed
    products, read product after product, are the rows of the SELECT in
    their order, and these rows are the joined rows of the active products,
    each once. *)
Theorem listing_keeps_rows (c : catalogue) :
  flat_map pe_variants (listing c) = map variant_of (select_listing c)
  /\ Permutation (select_listing c) (joined_rows c).
Proof.
  split; [| apply order_rows_perm].
  unfold listing, group_rows, map_values.
  destruct (@fold_group_sorted (select_listing c) []) as (_ & H).
  - apply sorted_pid, order_rows_sorted.
  - constructor.
  - intros k r [].
  - exact H.
Qed.

(** X9. The listing is ordered: the ids of the listed products are strictly
    increasing, so no product is listed twice, and the variants of each
    product come by weight, lightest first. *)
Theorem listing_ordered (c : catalogue) :
  StronglySorted Z.lt (map pe_id (listing c))
  /\ Forall (fun e => StronglySorted grams_le (pe_variants e)) (listing c).
Proof.
  split.
  - unfold listing. rewrite group_ids.
    destruct (@fold_group_sorted (select_listing c) []) as (H & _).
    + apply sorted_pid, order_rows_sorted.
    + constructor.
    + intros k r [].
    + exact H.
  - rewrite Forall_forall. intros e He. unfold listing in He.
    apply group_rows_In in He. destruct He as (r & rs & E & ->).
    change (StronglySorted grams_le (map variant_of (r :: rs))).
    rewrite <- E. apply rows_of_grams. apply order_rows_sorted.
Qed.

(** X10. A product is listed exactly when it is active and has a variant: an
    id is the id of a listed product if and only if some product row with
    that id has the status 'active' and some variant row belongs to it.  So
    the body of the answer is the empty array exactly when no active product
    has a variant. *)
Theorem listed_iff_active_with_variant (c : catalogue) :
  (forall k,
     (exists e, In e (listing c) /\ pe_id e = k)
     <-> exists p v,
           In p (cat_products c) /\ In v (cat_variants c)
           /\ sql_eq (lp_status p) (JStr "active") = true
           /\ lp_id p = k /\ lv_product_id v = k)
  /\ (get_products None c = (200%nat, JArr [])
      <-> forall p v,
            In p (cat_products c) -> In v (cat_variants c) ->
            sql_eq (lp_status p) (JStr "active") = true ->
            lv_product_id v <> lp_id p).
Proof.
  assert (Hk : forall k,
    (exists e, In e (listing c) /\ pe_id e = k)
    <-> exists p v,
          In p (cat_products c) /\ In v (cat_variants c)
          /\ sql_eq (lp_status p) (JStr "active") = true
          /\ lp_id p = k /\ lv_product_id v = k).
  { intros k. split.
    - intros (e & He & <-). unfold listing in He.
      apply group_rows_In in He. destruct He as (r & rs & E & _).
      assert (Hr : In r (rows_of (pe_id e) (select_listing c)))
        by (rewrite E; left; reflexivity).
      apply rows_of_In in Hr. destruct Hr as (Hr & Hid).
      apply select_listing_In, joined_rows_In in Hr.
      destruct Hr as (p & v & Hp & Hv & Ha & Hpv & ->). simpl in Hid.
      exists p, v. repeat split; try assumption. congruence.
    - intros (p & v & Hp & Hv & Ha & Hid & Hpv).
      assert (Hr : In (join_row p v) (rows_of k (select_listing c))).
      { apply rows_of_In. split; [| exact Hid].
        apply select_listing_In, joined_rows_In. exists p, v.
        repeat split; try assumption. congruence. }
      destruct (rows_of k (select_listing c)) as [| r rs] eqn:E;
        [contradiction |].
      assert (Hrk : row_pid r = k).
      { assert (K : In r (rows_of k (select_listing c)))
          by (rewrite E; left; reflexivity).
        apply rows_of_In in K. apply K. }
      exists (with_rows (product_of r) (r :: rs)). split; [| exact Hrk].
      unfold listing. apply group_rows_In. exists r, rs. simpl.
      rewrite Hrk. auto. }
  split; [exact Hk |].
  assert (Hb : get_products None c
               = (200%nat, JArr (map product_json (listing c))))
    by reflexivity.
  rewrite Hb. split.
  - intros H p v Hp Hv Ha Hpv.
    assert (Hl : listing c = []).
    { injection H as H. destruct (listing c); [reflexivity | discriminate]. }
    destruct (proj2 (Hk (lp_id p))) as (e & He & _).
    + exists p, v. auto.
    + rewrite Hl in He. contradiction.
  - intros H. destruct (listing c) as [| e rest] eqn:E; [reflexivity |].
    exfalso. destruct (proj1 (Hk (pe_id e))) as (p & v & Hp & Hv & Ha & H1 & H2).
    + exists e. split; [left |]; reflexivity.
    + apply (H p v Hp Hv Ha). congruence.
Qed.

(** X11. Where the fields of the listing come from.  A listed product has at
    least one variant and carries the sku, name and description of an active
    product row of its id, but as [image_url] the image of its first listed
    variant.  Every listed variant is a variant row of the product, with its
    id, its price as a number, its compare-at price as a number or null, and
    as image its own [image_url] unless that is NULL, then the product's. *)
Theorem listing_fields (c : catalogue) (e : product_entry) :
  In e (listing c) ->
  (exists x xs, pe_variants e = x :: xs /\ pe_image_url e = ve_image x)
  /\ (exists p,
        In p (cat_products c)
        /\ sql_eq (lp_status p) (JStr "active") = true
        /\ lp_id p = pe_id e /\ pe_sku e = lp_sku p
        /\ pe_name e = lp_name p /\ pe_description e = lp_description p)
  /\ forall x,
       In x (pe_variants e) ->
       exists p v,
         In p (cat_products c) /\ In v (cat_variants c)
         /\ sql_eq (lp_status p) (JStr "active") = true
         /\ lp_id p = pe_id e /\ lv_product_id v = pe_id e
         /\ ve_id x = lv_id v
         /\ ve_grams x = lv_grams v
         /\ ve_price x = Fin (lv_price v)
         /\ ve_compare x = option_map Fin (lv_compare_at_price v)
         /\ ve_image x = coalesce (lv_image_url v) (lp_image_url p).
Proof.
  intros He. unfold listing in He. apply group_rows_In in He.
  destruct He as (r & rs & E & ->). simpl.
  assert (Hin : forall r', In r' (r :: rs) ->
            exists p v,
              In p (cat_products c) /\ In v (cat_variants c)
              /\ sql_eq (lp_status p) (JStr "active") = true
              /\ lp_id p = row_pid r /\ lv_product_id v = row_pid r
              /\ r' = join_row p v).
  { intros r' Hr'. rewrite <- E in Hr'. apply rows_of_In in Hr'.
    destruct Hr' as (Hr' & Hid). simpl in Hid.
    apply select_listing_In, joined_rows_In in Hr'.
    destruct Hr' as (p & v & Hp & Hv & Ha & Hpv & ->). simpl in Hid.
    exists p, v. repeat split; try assumption. congruence. }
  split; [| split].
  - exists (variant_of r), (map variant_of rs). split; reflexivity.
  - destruct (Hin r (or_introl eq_refl)) as (p & v & Hp & _ & Ha & Hid & _ & Hr).
    exists p. rewrite Hr. simpl. rewrite Hr in Hid. simpl in Hid.
    repeat split; try assumption; reflexivity.
  - intros x Hx. change (In x (map variant_of (r :: rs))) in Hx.
    apply in_map_iff in Hx. destruct Hx as (r' & <- & Hr').
    destruct (Hin r' Hr') as (p & v & Hp & Hv & Ha & Hid & Hpv & ->).
    exists p, v. simpl. repeat split; assumption.
Qed.
End ListingFacts.

(** ** Matching a regular expression *)

Lemma matches_nil_seq (a b : regex) :
  matches (Seq a b) [] -> matches a [] /\ matches b [].
Proof.
  intros H. inversion H as [| | ? ? s t Ha Hb Hst | | | |]; subst.
  destruct s; [| discriminate]. destruct t; [| discriminate]. auto.
Qed.

Lemma nullable_matches (r : regex) : nullable r = true <-> matches r [].
Proof.
  induction r as [| | f | a IHa b IHb | a IHa b IHb | a IHa]; simpl.
  - split; [discriminate | intros H; inversion H].
  - split; [constructor | reflexivity].
  - split; [discriminate | intros H; inversion H].
  - rewrite andb_true_iff, IHa, IHb. split.
    + intros [Ha Hb]. exact (MSeq Ha Hb).
    + apply matches_nil_seq.
  - rewrite orb_true_iff, IHa, IHb. split.
    + intros [H | H]; [apply MAltL | apply MAltR]; exact H.
    + intros H. inversion H; subst; auto.
  - split; [constructor | reflexivity].
Qed.

Lemma matches_seq (a b : regex) (s : list ascii) :
  matches (Seq a b) s
  <-> exists s1 s2, s = s1 ++ s2 /\ matches a s1 /\ matches b s2.
Proof.
  split.
  - intros H. inversion H; subst. eauto.
  - intros (s1 & s2 & -> & Ha & Hb). constructor; assumption.
Qed.

Lemma matches_chr (f : ascii -> bool) (s : list ascii) :
  matches (Chr f) s <-> exists c, s = [c] /\ f c = true.
Proof.
  split.
  - intros H. inversion H; subst. eauto.
  - intros (c & -> & Hc). constructor. exact Hc.
Qed.

Lemma matches_alt (a b : regex) (s : list ascii) :
  matches (Alt a b) s <-> matches a s \/ matches b s.
Proof.
  split.
  - intros H. inversion H; subst; auto.
  - intros [H | H]; [apply MAltL | apply MAltR]; exact H.
Qed.

Lemma matches_star_cons (a : regex) (c : ascii) (s : list ascii) :
  matches (Star a) (c :: s) ->
  exists s1 s2, s = s1 ++ s2 /\ matches a (c :: s1) /\ matches (Star a) s2.
Proof.
  intros H. remember (Star a) as r eqn:Er. remember (c :: s) as l eqn:El.
  revert s El.
  induction H as [| | | | | | a' s0 t Ha _ Ht IH]; try discriminate.
  intros s El. injection Er as ->.
  destruct s0 as [| c0 s0'].
  - simpl in El. apply IH; [reflexivity | exact El].
  - simpl in El. injection El as -> <-. exists s0', t. auto.
Qed.

Lemma deriv_matches (c : ascii) (r : regex) :
  forall s, matches (deriv c r) s <-> matches r (c :: s).
Proof.
  induction r as [| | f | a IHa b IHb | a IHa b IHb | a IHa]; intros s; simpl.
  - split; intros H; inversion H.
  - split; intros H; inversion H.
  - destruct (f c) eqn:E.
    + split.
      * intros H. inversion H; subst. constructor. exact E.
      * intros H. inversion H; subst. constructor.
    + split; intros H; inversion H; subst. congruence.
  - assert (Hseq : matches (Seq (deriv c a) b) s
                   <-> exists s1 s2, s = s1 ++ s2 /\ matches a (c :: s1)
                                     /\ matches b s2).
    { rewrite matches_seq. split.
      - intros (s1 & s2 & -> & Ha & Hb). apply IHa in Ha. eauto.
      - intros (s1 & s2 & -> & Ha & Hb). apply IHa in Ha. eauto. }
    rewrite (matches_seq a b (c :: s)).
    destruct (nullable a) eqn:Na.
    + rewrite matches_alt. split.
      * intros [H | H].
        -- apply Hseq in H. destruct H as (s1 & s2 & -> & Ha & Hb).
           exists (c :: s1), s2. auto.
        -- apply IHb in H. apply nullable_matches in Na.
           exists [], (c :: s). auto.
      * intros (s1 & s2 & E & Ha & Hb). destruct s1 as [| c1 s1'].
        -- simpl in E. subst s2. right. apply IHb. exact Hb.
        -- simpl in E. injection E as <- ->. left. apply Hseq. eauto.
    + rewrite Hseq. split.
      * intros (s1 & s2 & -> & Ha & Hb). exists (c :: s1), s2. auto.
      * intros (s1 & s2 & E & Ha & Hb). destruct s1 as [| c1 s1'].
        -- apply nullable_matches in Ha. congruence.
        -- simpl in E. injection E as <- ->. eauto.
  - rewrite !matches_alt, IHa, IHb. reflexivity.
  - rewrite matches_seq. split.
    + intros (s1 & s2 & -> & Ha & Hb). apply IHa in Ha.
      exact (MStarApp Ha Hb).
    + intros H. apply matches_star_cons in H.
      destruct H as (s1 & s2 & -> & Ha & Hb). apply IHa in Ha. eauto.
Qed.

Lemma matchb_matches (s : list ascii) :
  forall r, matchb r s = true <-> matches r s.
Proof.
  induction s as [| c rest IH]; intros r; simpl.
  - apply nullable_matches.
  - rewrite IH. apply deriv_matches.
Qed.

Lemma matches_star_chr (f : ascii -> bool) (s : list ascii) :
  matches (Star (Chr f)) s <-> forallb f s = true.
Proof.
  split.
  - intros H. remember (Star (Chr f)) as r eqn:Er.
    induction H as [| | | | | | a s0 t Ha _ Ht IH]; try discriminate.
    + reflexivity.
    + injection Er as ->. apply matches_chr in Ha.
      destruct Ha as (c & -> & Hc). simpl. rewrite Hc. apply IH. reflexivity.
  - induction s as [| c rest IH]; simpl; intros H; [constructor |].
    apply andb_true_iff in H. destruct H as (Hc & Hrest).
    change (c :: rest) with ([c] ++ rest).
    constructor; [constructor; exact Hc | exact (IH Hrest)].
Qed.

Lemma matches_plus_chr (f : ascii -> bool) (s : list ascii) :
  matches (Plus (Chr f)) s <-> s <> [] /\ forallb f s = true.
Proof.
  unfold Plus. rewrite matches_seq. split.
  - intros (s1 & s2 & -> & H1 & H2). apply matches_chr in H1.
    destruct H1 as (c & -> & Hc). apply matches_star_chr in H2.
    simpl. rewrite Hc, H2. split; [discriminate | reflexivity].
  - intros (Hne & H). destruct s as [| c rest]; [contradiction |].
    simpl in H. apply andb_true_iff in H. destruct H as (Hc & Hrest).
    exists [c], rest. split; [reflexivity |].
    split; [constructor; exact Hc | apply matches_star_chr; exact Hrest].
Qed.

Lemma is_char_eq (x c : ascii) : is_char x c = true <-> c = x.
Proof. unfold is_char. apply Ascii.eqb_eq. Qed.

(** The strings the pattern of the handler matches. *)
Lemma matches_email_pattern (s : list ascii) :
  matches email_pattern s
  <-> exists a b c,
        s = a ++ "@"%char :: b ++ "."%char :: c
        /\ a <> [] /\ b <> [] /\ c <> []
        /\ forallb not_at_space a = true
        /\ forallb not_at_space b = true
        /\ forallb not_at_space c = true.
Proof.
  unfold email_pattern. split.
  - intros H.
    apply matches_seq in H. destruct H as (a & s1 & -> & Ha & H).
    apply matches_seq in H. destruct H as (x & s2 & -> & Hx & H).
    apply matches_seq in H. destruct H as (b & s3 & -> & Hb & H).
    apply matches_seq in H. destruct H as (y & c & -> & Hy & Hc).
    apply matches_chr in Hx. destruct Hx as (cx & -> & Hx).
    apply matches_chr in Hy. destruct Hy as (cy & -> & Hy).
    apply is_char_eq in Hx, Hy. subst cx cy.
    apply matches_plus_chr in Ha, Hb, Hc.
    exists a, b, c. simpl. tauto.
  - intros (a & b & c & -> & Ha & Hb & Hc & Fa & Fb & Fc).
    apply matches_seq. exists a, ("@"%char :: b ++ "."%char :: c).
    split; [reflexivity |]. split; [apply matches_plus_chr; auto |].
    apply matches_seq. exists ["@"%char], (b ++ "."%char :: c).
    split; [reflexivity |].
    split; [apply matches_chr; exists "@"%char; auto |].
    apply matches_seq. exists b, ("."%char :: c).
    split; [reflexivity |]. split; [apply matches_plus_chr; auto |].
    apply matches_seq. exists ["."%char], c.
    split; [reflexivity |].
    split; [apply matches_chr; exists "."%char; auto |].
    apply matches_plus_chr; auto.
Qed.

(** ** Trimming and lower case *)

Lemma is_space_lower (c : ascii) : is_space (lower_char c) = is_space c.
Proof. destruct c as [[] [] [] [] [] [] [] []]; reflexivity. Qed.

Lemma lower_char_idem (c : ascii) : lower_char (lower_char c) = lower_char c.
Proof. destruct c as [[] [] [] [] [] [] [] []]; reflexivity. Qed.

Lemma not_at_space_lower (c : ascii) :
  not_at_space (lower_char c) = not_at_space c.
Proof. destruct c as [[] [] [] [] [] [] [] []]; reflexivity. Qed.

Lemma trim_start_pad (pre s : list ascii) :
  forallb is_space pre = true -> trim_start (pre ++ s) = trim_start s.
Proof.
  induction pre as [| c rest IH]; simpl; intros H; [reflexivity |].
  apply andb_true_iff in H. destruct H as (Hc & Hrest).
  rewrite Hc. exact (IH Hrest).
Qed.

Lemma trim_start_spaces (s : list ascii) :
  forallb is_space s = true -> trim_start s = [].
Proof.
  intros H. rewrite <- (app_nil_r s). rewrite (trim_start_pad s [] H).
  reflexivity.
Qed.

Lemma forallb_rev {A} (f : A -> bool) (l : list A) :
  forallb f (rev l) = forallb f l.
Proof.
  induction l as [| x rest IH]; simpl; [reflexivity |].
  rewrite forallb_app, IH. simpl. rewrite andb_true_r. apply andb_comm.
Qed.

Lemma trim_end_pad (s post : list ascii) :
  forallb is_space post = true ->
  trim_start (rev (trim_start (s ++ post))) = trim_start (rev (trim_start s)).
Proof.
  intros H. induction s as [| c rest IH]; simpl.
  - rewrite (trim_start_spaces post H). reflexivity.
  - destruct (is_space c); [exact IH |].
    simpl. rewrite rev_app_distr, <- app_assoc.
    apply trim_start_pad. rewrite forallb_rev. exact H.
Qed.

Lemma trim_chars_pad (pre s post : list ascii) :
  forallb is_space pre = true ->
  forallb is_space post = true ->
  trim_chars (pre ++ s ++ post) = trim_chars s.
Proof.
  intros Hpre Hpost. unfold trim_chars.
  rewrite (trim_start_pad pre (s ++ post) Hpre), (trim_end_pad s post Hpost).
  reflexivity.
Qed.

Lemma trim_start_lower (s : list ascii) :
  trim_start (map lower_char s) = map lower_char (trim_start s).
Proof.
  induction s as [| c rest IH]; simpl; [reflexivity |].
  rewrite is_space_lower. destruct (is_space c); [exact IH | reflexivity].
Qed.

Lemma trim_chars_lower (s : list ascii) :
  trim_chars (map lower_char s) = map lower_char (trim_chars s).
Proof.
  unfold trim_chars.
  rewrite trim_start_lower, <- map_rev, trim_start_lower, map_rev.
  reflexivity.
Qed.

Lemma trim_start_split (s : list ascii) :
  exists pre, s = pre ++ trim_start s /\ forallb is_space pre = true
              /\ no_lead (trim_start s).
Proof.
  induction s as [| c rest (pre & E & Hpre & Hlead)]; simpl.
  - exists []. simpl. auto.
  - destruct (is_space c) eqn:Ec.
    + exists (c :: pre). simpl. rewrite Ec, Hpre, <- E. auto.
    + exists []. simpl. auto.
Qed.

Lemma trim_start_fixed (s : list ascii) : no_lead s -> trim_start s = s.
Proof. destruct s as [| c rest]; simpl; [reflexivity |]. intros ->. reflexivity. Qed.

Lemma trim_chars_ends (s : list ascii) :
  no_lead (trim_chars s) /\ no_lead (rev (trim_chars s)).
Proof.
  unfold trim_chars. rewrite rev_involutive.
  destruct (trim_start_split s) as (pre & E & Hpre & Hlead).
  destruct (trim_start_split (rev (trim_start s))) as (pre' & E' & Hpre' & Hlead').
  split; [| exact Hlead'].
  set (t := trim_start s) in *. set (u := trim_start (rev t)) in *.
  assert (Ht : t = rev u ++ rev pre').
  { rewrite <- rev_app_distr, <- E'. symmetry. apply rev_involutive. }
  destruct (rev u) as [| c rest] eqn:Eu; [exact I |].
  rewrite Ht in Hlead. exact Hlead.
Qed.

Lemma trim_chars_idem (s : list ascii) :
  trim_chars (trim_chars s) = trim_chars s.
Proof.
  destruct (trim_chars_ends s) as (H1 & H2).
  unfold trim_chars at 1.
  rewrite (trim_start_fixed _ H1), (trim_start_fixed _ H2).
  apply rev_involutive.
Qed.

Lemma chars_string (l : list ascii) : chars (string_of_list_ascii l) = l.
Proof. apply list_ascii_of_string_of_list_ascii. Qed.

Lemma chars_inj (s t : string) : chars s = chars t -> s = t.
Proof.
  intros H. rewrite <- (string_of_list_ascii_of_string s).
  rewrite <- (string_of_list_ascii_of_string t).
  unfold chars in H. rewrite H. reflexivity.
Qed.

Lemma chars_lower_trim (s : string) :
  chars (toLowerCase (trim s)) = map lower_char (trim_chars (chars s)).
Proof.
  unfold toLowerCase, trim, chars.
  rewrite !list_ascii_of_string_of_list_ascii. reflexivity.
Qed.

(** Normalising twice is normalising once. *)
Lemma lower_trim_idem (s : string) :
  toLowerCase (trim (toLowerCase (trim s))) = toLowerCase (trim s).
Proof.
  apply chars_inj. rewrite chars_lower_trim, chars_lower_trim.
  rewrite trim_chars_lower, trim_chars_idem, map_map.
  apply map_ext. apply lower_char_idem.
Qed.

(** ** The subscription *)

Lemma not_at_space_count (l : list ascii) :
  forallb not_at_space l = true -> count_occ ascii_dec l "@"%char = 0%nat.
Proof.
  induction l as [| c rest IH]; simpl; intros H; [reflexivity |].
  apply andb_true_iff in H. destruct H as (Hc & Hrest).
  destruct (ascii_dec c "@") as [-> | _]; [discriminate | exact (IH Hrest)].
Qed.

Lemma not_at_space_no_space (l : list ascii) :
  forallb not_at_space l = true -> existsb is_space l = false.
Proof.
  induction l as [| c rest IH]; simpl; intros H; [reflexivity |].
  apply andb_true_iff in H. destruct H as (Hc & Hrest).
  rewrite (IH Hrest). unfold not_at_space in Hc.
  apply andb_true_iff in Hc. destruct Hc as (_ & Hc).
  destruct (is_space c); [discriminate | reflexivity].
Qed.

Lemma test_email_pattern (s : string) :
  test email_pattern s = true
  <-> exists a b c,
        chars s = a ++ "@"%char :: b ++ "."%char :: c
        /\ a <> [] /\ b <> [] /\ c <> []
        /\ forallb not_at_space a = true
        /\ forallb not_at_space b = true
        /\ forallb not_at_space c = true.
Proof.
  unfold test. rewrite matchb_matches. apply matches_email_pattern.
Qed.

(** What every accepted string has. *)
Lemma accepted_email (s : string) :
  test email_pattern s = true ->
  count_occ ascii_dec (chars s) "@"%char = 1%nat
  /\ existsb is_space (chars s) = false
  /\ In "."%char (chars s).
Proof.
  intros H. apply test_email_pattern in H.
  destruct H as (a & b & c & -> & _ & _ & _ & Fa & Fb & Fc).
  split; [| split].
  - rewrite count_occ_app. simpl.
    rewrite count_occ_app. simpl.
    rewrite !not_at_space_count by assumption. reflexivity.
  - rewrite existsb_app. simpl. rewrite existsb_app. simpl.
    rewrite !not_at_space_no_space by assumption. reflexivity.
  - apply in_or_app. right. right. apply in_or_app. right. left. reflexivity.
Qed.

Section NewsletterFacts.
Context {P : Platform}.
Variable NumberToString : number -> string.

Lemma normalized_email_string (s : string) :
  normalized_email NumberToString (JStr s) = toLowerCase (trim s).
Proof.
  unfold normalized_email, js_or. simpl.
  destruct (String.eqb_spec s ""); [subst s |]; reflexivity.
Qed.

Lemma normalized_email_idem (v : jsval) :
  toLowerCase (trim (normalized_email NumberToString v))
  = normalized_email NumberToString v.
Proof. unfold normalized_email. apply lower_trim_idem. Qed.

(** X12. The strings the pattern of the subscription accepts are those of
    the shape local@domain.tld: a non-empty part, an [@], a non-empty part, a
    dot and a non-empty part, none of the parts holding an [@] or white
    space. *)
Theorem email_pattern_shape (s : string) :
  test email_pattern s = true
  <-> exists a b c,
        chars s = a ++ "@"%char :: b ++ "."%char :: c
        /\ a <> [] /\ b <> [] /\ c <> []
        /\ forallb not_at_space (a ++ b ++ c) = true.
Proof.
  rewrite test_email_pattern. split.
  - intros (a & b & c & E & Ha & Hb & Hc & Fa & Fb & Fc).
    exists a, b, c. rewrite !forallb_app, Fa, Fb, Fc.
    repeat split; assumption.
  - intros (a & b & c & E & Ha & Hb & Hc & F).
    rewrite !forallb_app in F.
    apply andb_true_iff in F. destruct F as (Fa & F).
    apply andb_true_iff in F. destruct F as (Fb & Fc).
    exists a, b, c. repeat split; assumption.
Qed.

(** X13. Whatever the subscription binds to its INSERT is a valid and
    normalised address: it sends at most one statement, and the email bound
    to it matches the pattern, holds exactly one [@], a dot and no white
    space, and is left as it is by trimming and lower-casing again.  The
    answer is then 200 [{ok:true}] when the store raises nothing and 500
    "Failed to subscribe" when it does, without the store's message. *)
Theorem newsletter_inserts_valid_email (fault : option string) (body : jsval)
        (e : string) :
  In e (nl_inserted (newsletter NumberToString fault body)) ->
  nl_inserted (newsletter NumberToString fault body) = [e]
  /\ test email_pattern e = true
  /\ count_occ ascii_dec (chars e) "@"%char = 1%nat
  /\ existsb is_space (chars e) = false
  /\ In "."%char (chars e)
  /\ toLowerCase (trim e) = e
  /\ nl_response (newsletter NumberToString fault body)
     = Some match fault with
            | None => (200%nat, JObj [("ok", JBool true)])
            | Some _ =>
                (500%nat,
                 JObj [("ok", JBool false);
                       ("error", JStr "Failed to subscribe")])
            end.
Proof.
  unfold newsletter.
  destruct (get_prop body "email") as [x | v]; [intros [] |].
  cbv zeta.
  destruct (test email_pattern (normalized_email NumberToString v)) eqn:T;
    simpl negb; cbv iota; [| intros []].
  assert (He : forall f : option string,
             In e (nl_inserted
                     match f with
                     | None =>
                         {| nl_response :=
                              Some (200%nat, JObj [("ok", JBool true)]);
                            nl_inserted :=
                              [normalized_email NumberToString v] |}
                     | Some _ =>
                         {| nl_response :=
                              Some (500%nat,
                                    failure_body "Failed to subscribe");
                            nl_inserted :=
                              [normalized_email NumberToString v] |}
                     end) ->
             e = normalized_email NumberToString v).
  { intros [m |] [H | []]; symmetry; exact H. }
  intros H. apply He in H. subst e.
  destruct (accepted_email _ T) as (H1 & H2 & H3).
  split; [destruct fault; reflexivity |].
  split; [exact T |]. split; [exact H1 |]. split; [exact H2 |].
  split; [exact H3 |]. split; [apply normalized_email_idem |].
  destruct fault; reflexivity.
Qed.

(** X14. The subscription is refused before the store is reached: when
    [email] is missing or empty, or when the normalised address has no [@],
    more than one [@], no dot or some white space inside, the answer is 400
    "Invalid email" and no statement is sent, whatever the store would do. *)
Theorem newsletter_rejects_malformed (fault : option string)
        (body v : jsval) :
  get_prop body "email" = inr v ->
  truthy v = false
  \/ count_occ ascii_dec (chars (normalized_email NumberToString v)) "@"%char
     <> 1%nat
  \/ existsb is_space (chars (normalized_email NumberToString v)) = true
  \/ ~ In "."%char (chars (normalized_email NumberToString v)) ->
  newsletter NumberToString fault body
  = {| nl_response :=
         Some (400%nat,
               JObj [("ok", JBool false); ("error", JStr "Invalid email")]);
       nl_inserted := [] |}.
Proof.
  intros Hv H. unfold newsletter. rewrite Hv. cbv zeta.
  destruct (test email_pattern (normalized_email NumberToString v)) eqn:T;
    [| reflexivity].
  exfalso. destruct (accepted_email _ T) as (H1 & H2 & H3).
  destruct H as [H | [H | [H | H]]].
  - unfold normalized_email, js_or in T. rewrite H in T. discriminate T.
  - exact (H H1).
  - congruence.
  - exact (H H3).
Qed.

(** X15. The subscription does not see letter case or the white space
    around the address: two bodies whose emails are the same string up to
    lower-casing and up to white space added before and after get the same
    answer and bind the same email. *)
Theorem newsletter_ignores_case_and_padding (fault : option string)
        (body1 body2 : jsval) (s1 s2 : string) (pre post : list ascii) :
  get_prop body1 "email" = inr (JStr s1) ->
  get_prop body2 "email" = inr (JStr s2) ->
  forallb is_space pre = true ->
  forallb is_space post = true ->
  map lower_char (chars s2) = pre ++ map lower_char (chars s1) ++ post ->
  newsletter NumberToString fault body2
  = newsletter NumberToString fault body1.
Proof.
  intros H1 H2 Hpre Hpost E. unfold newsletter. rewrite H1, H2. cbv zeta.
  assert (Hn : normalized_email NumberToString (JStr s2)
               = normalized_email NumberToString (JStr s1)).
  { rewrite !normalized_email_string. apply chars_inj.
    rewrite !chars_lower_trim, <- !trim_chars_lower, E.
    apply trim_chars_pad; assumption. }
  rewrite Hn. reflexivity.
Qed.
End NewsletterFacts.

(** ** The other handlers on examples *)

Section MoreExamples.
Existing Instance plain_platform.

Example stall_listing :
  listing stall
  = [{| pe_id := 1; pe_sku := JStr "ABC"; pe_name := JStr "Almonds";
        pe_description := JNull; pe_image_url := JStr "almonds-250.png";
        pe_variants :=
          [{| ve_id := 13; ve_label := JStr "250 g"; ve_grams := 250;
              ve_price := Fin (25 # 4); ve_compare := None;
              ve_image := JStr "almonds-250.png" |};
           {| ve_id := 11; ve_label := JStr "500 g"; ve_grams := 500;
              ve_price := Fin 10; ve_compare := None;
              ve_image := JStr "almonds.png" |}] |};
     {| pe_id := 4; pe_sku := JStr "XYZ"; pe_name := JStr "Walnuts";
        pe_description := JStr "Shelled"; pe_image_url := JStr "walnuts.png";
        pe_variants :=
          [{| ve_id := 10; ve_label := JStr "100 g"; ve_grams := 100;
              ve_price := Fin 4; ve_compare := Some (Fin 5);
              ve_image := JStr "walnuts.png" |}] |}].
Proof. vm_compute. reflexivity. Qed.

Example listing_failure :
  get_products (Some "Too many connections") stall
  = (500%nat, failure_body "Failed to load products").
Proof. reflexivity. Qed.

Example padded_subscription_run :
  newsletter no_number_text None padded_subscription
  = {| nl_response := Some (200%nat, JObj [("ok", JBool true)]);
       nl_inserted := ["ada@example.com"] |}.
Proof. vm_compute. reflexivity. Qed.

Example subscriptions_refused :
  map (fun s => nl_response
                  (newsletter no_number_text None (JObj [("email", JStr s)])))
      ["ada"; "ada@example"; "ada@.com"; "ada@example."; "@example.com";
       "ada smith@example.com"; ""]
  = repeat (Some (400%nat, failure_body "Invalid email")) 7.
Proof. vm_compute. reflexivity. Qed.

Example no_body_no_answer :
  newsletter no_number_text None JUndefined
  = {| nl_response := None; nl_inserted := [] |}.
Proof. reflexivity. Qed.

Example lost_connection_run :
  checkout_handler lost_after_begin 1000 (Some "Connection lost") shop
    new_user_cart
  = {| answer := None;
       thrown := Some (Error "Connection lost");
       kept := shop;
       history :=
         [EvAcquire; EvBegin;
          EvQuery (SelectUserByEmail (JStr "new@example.com"));
          EvRollback; EvRelease] |}.
Proof. vm_compute. reflexivity. Qed.

Example clamped_cart_run :
  response (checkout no_faults 1000 shop clamped_cart)
  = (200%nat, success_body 1 (Fin 20) (Fin 20) (Fin 0)).
Proof. vm_compute. reflexivity. Qed.
End MoreExamples.

Section MoreInstances.
Existing Instance plain_platform.


Lemma total_is_subtotal_minus_discount_new_user :
  exists orderId subtotal discount total,
    response (checkout no_faults 1000 shop new_user_cart)
    = (200%nat,
       success_body orderId (Fin subtotal) (Fin discount) (Fin total))
    /\ total == subtotal - discount
    /\ total <= subtotal.
Proof.
  apply (@total_is_subtotal_minus_discount plain_platform no_faults 1000 shop
           new_user_cart).
  - repeat (constructor; [unfold Qle; simpl; lia |]). constructor.
  - repeat (constructor; [unfold Qle; simpl; lia |]). constructor.
  - vm_compute. reflexivity.
Defined.

Lemma discount_clamped_to_subtotal_flat30 :
  exists orderId subtotal discount total,
    response (checkout no_faults 1000 shop clamped_cart)
    = (200%nat, success_body orderId (Fin subtotal) discount (Fin total))
    /\ forall c0 l a,
         truthy (coupon_of clamped_cart) = true ->
         coupons_by_code 1000 shop (coupon_of clamped_cart) = c0 :: l ->
         coupon_applies (c0 :: l) (Fin subtotal) = true ->
         coupon_amount c0 (Fin subtotal) = Fin a ->
         exists x,
           discount = Fin x
           /\ (subtotal <= a -> x == subtotal /\ total == 0)
           /\ (a <= subtotal -> x == a).
Proof.
  apply (@discount_clamped_to_subtotal plain_platform no_faults 1000 shop
           clamped_cart).
  vm_compute. reflexivity.
Defined.

Lemma same_email_one_user_returning :
  users (store (checkout no_faults 2000
                  (store (checkout no_faults 1000 shop new_user_cart))
                  returning_cart))
  = users (store (checkout no_faults 1000 shop new_user_cart)).
Proof.
  apply (@same_email_one_user plain_platform no_faults no_faults 1000 2000
           shop new_user_cart returning_cart).
  - reflexivity.
  - reflexivity.
  - reflexivity.
  - vm_compute. reflexivity.
Defined.

Lemma non_numeric_quantity_fails_worded :
  fst (response (checkout no_faults 1000 shop worded_cart)) = 500%nat
  /\ store (checkout no_faults 1000 shop worded_cart) = shop.
Proof.
  apply (@non_numeric_quantity_fails plain_platform no_faults 1000 shop
           worded_cart [by_id 1 (JStr "two")] (by_id 1 (JStr "two"))).
  - reflexivity.
  - left. reflexivity.
  - vm_compute. reflexivity.
Defined.

Lemma begin_failure_sends_nothing_down :
  checkout_handler down_at_begin 1000 (Some "Connection lost") shop
    new_user_cart
  = {| answer := None;
       thrown := Some (Error "Connection lost");
       kept := shop;
       history := [EvAcquire; EvBegin; EvRollback; EvRelease] |}.
Proof.
  apply (@begin_failure_sends_nothing plain_platform down_at_begin 1000
           (Some "Connection lost") shop new_user_cart (by_id 1 (jnum 2))
           [by_sku "ABC" 500 JUndefined] "Connection lost").
  - reflexivity.
  - reflexivity.
Defined.

Lemma listing_fields_stall :
  In walnuts_entry (listing stall)
  /\ (exists x xs,
        pe_variants walnuts_entry = x :: xs
        /\ pe_image_url walnuts_entry = ve_image x)
  /\ exists p,
       In p (cat_products stall)
       /\ sql_eq (lp_status p) (JStr "active") = true
       /\ lp_id p = pe_id walnuts_entry
       /\ pe_sku walnuts_entry = lp_sku p
       /\ pe_name walnuts_entry = lp_name p
       /\ pe_description walnuts_entry = lp_description p.
Proof.
  assert (He : In walnuts_entry (listing stall)).
  { vm_compute. right. left. reflexivity. }
  split; [exact He |].
  destruct (@listing_fields plain_platform stall walnuts_entry He)
    as (H1 & H2 & _).
  split; [exact H1 | exact H2].
Defined.

Lemma newsletter_inserts_valid_email_padded :
  nl_inserted (newsletter no_number_text None padded_subscription)
  = ["ada@example.com"]
  /\ count_occ ascii_dec (chars "ada@example.com") "@"%char = 1%nat
  /\ toLowerCase (trim "ada@example.com") = "ada@example.com".
Proof.
  destruct (@newsletter_inserts_valid_email plain_platform no_number_text None
              padded_subscription "ada@example.com")
    as (H1 & _ & H3 & _ & _ & H6 & _).
  - vm_compute. left. reflexivity.
  - split; [exact H1 |]. split; [exact H3 | exact H6].
Defined.

Lemma newsletter_rejects_malformed_doubled_at :
  newsletter no_number_text (Some "Table is read only") doubled_at_subscription
  = {| nl_response :=
         Some (400%nat,
               JObj [("ok", JBool false); ("error", JStr "Invalid email")]);
       nl_inserted := [] |}.
Proof.
  apply (@newsletter_rejects_malformed plain_platform no_number_text
           (Some "Table is read only") doubled_at_subscription
           (JStr "ada@@example.com")).
  - reflexivity.
  - right. left. vm_compute. discriminate.
Defined.

Lemma newsletter_ignores_case_and_padding_ada :
  newsletter no_number_text None padded_subscription
  = newsletter no_number_text None plain_subscription.
Proof.
  apply (@newsletter_ignores_case_and_padding plain_platform no_number_text
           None plain_subscription padded_subscription
           "ada@example.com" "  Ada@Example.COM "
           [" "%char; " "%char] [" "%char]).
  - reflexivity.
  - reflexivity.
  - reflexivity.
  - reflexivity.
  - vm_compute. reflexivity.
Defined.
End MoreInstances.
